(** * techo: layout engine of the terminal face/message printer

    A shallow embedding of [techo.py] (sanitizer, face selector, width
    engine and the two renderers) and the properties of its layout
    arithmetic.

    Conventions of the embedding.
    - A Python [str] is the list of its Unicode code points ([str]).
    - Python integers are [Z].  The program computes several indices through
      float expressions such as [int(len(x) / 2)] or [int(s/2 + 0.5)];
      every operand is an integer far below 2^52, so the float value is the
      exact rational and [int] truncates it toward zero: [int(n / 2)] is
      [Z.quot n 2], [int(s/2 + 0.5)] is [Z.quot (s + 1) 2] and
      [int(a/2 - b/2 + 0.5)] is [Z.quot (a - b + 1) 2].
    - An uncaught Python exception is the [Raise] outcome of [result].
    - [unicodedata.east_asian_width] is a table of the Python runtime, not
      of this program: the definitions take it as a parameter [eaw]. *)

From Stdlib Require Import String Ascii ZArith NArith List Bool Lia.
From Stdlib Require Import DecimalString.
Import ListNotations.

Open Scope Z_scope.

(** ** Python values *)

Module Py.

Definition char := Z.
Definition str := list char.

(** The code points of an ASCII literal. *)
Definition lit (s : string) : str :=
  map (fun a => Z.of_N (N_of_ascii a)) (list_ascii_of_string s).

Definition TAB : char := 9.
Definition LF : char := 10.
Definition CR : char := 13.
Definition ESC : char := 27.
Definition SP : char := 32.
Definition DOT : char := 46.

Definition len {A} (l : list A) : Z := Z.of_nat (length l).

Inductive exn := IndexError | ValueError.

Inductive result (A : Type) :=
| Ok (a : A)
| Raise (e : exn).
Arguments Ok {A} a.
Arguments Raise {A} e.

Definition bind {A B} (r : result A) (k : A -> result B) : result B :=
  match r with
  | Ok a => k a
  | Raise e => Raise e
  end.

(** [l[i]]: a negative index counts from the end, anything outside
    [-len, len) raises IndexError. *)
Definition index {A} (l : list A) (i : Z) : result A :=
  let j := if i <? 0 then i + len l else i in
  if j <? 0 then Raise IndexError
  else match nth_error l (Z.to_nat j) with
       | Some x => Ok x
       | None => Raise IndexError
       end.

(** [l[a:b]]: each bound is taken from the end when negative and then
    clipped to [0, len]; an empty range gives the empty list. *)
Definition slice_bound (n i : Z) : Z :=
  if i <? 0 then Z.max 0 (i + n) else Z.min i n.

Definition slice {A} (l : list A) (a b : Z) : list A :=
  let a' := slice_bound (len l) a in
  let b' := slice_bound (len l) b in
  firstn (Z.to_nat (b' - a')) (skipn (Z.to_nat a') l).

(** [c * n] for a one-character string [c]. *)
Definition times (c : char) (n : Z) : str := repeat c (Z.to_nat n).

(** [s.replace('\t', ' ')]. *)
Definition replace_tab (s : str) : str :=
  map (fun c => if c =? TAB then SP else c) s.

(** [s.rstrip('\n')]: every trailing newline goes. *)
Fixpoint rstrip_nl (s : str) : str :=
  match s with
  | [] => []
  | c :: t =>
      match rstrip_nl t with
      | [] => if c =? LF then [] else [c]
      | t' => c :: t'
      end
  end.

(** The line boundaries of [str.splitlines]: \n \r \v \f \x1c \x1d \x1e
    \x85 U+2028 U+2029 (and the pair \r\n, one boundary). *)
Definition is_linebreak (c : char) : bool :=
  (c =? 10) || (c =? 11) || (c =? 12) || (c =? 13) ||
  (c =? 28) || (c =? 29) || (c =? 30) ||
  (c =? 133) || (c =? 8232) || (c =? 8233).

(** [s.splitlines()].  [after_cr] is set right after a \r, whose following
    \n belongs to the same boundary.  A boundary at the very end opens no
    further line, and the empty string has no line. *)
Fixpoint splitlines_from (after_cr : bool) (s : str) : list str :=
  match s with
  | [] => []
  | c :: t =>
      if after_cr && (c =? LF) then splitlines_from false t
      else if is_linebreak c then [] :: splitlines_from (c =? CR) t
      else match splitlines_from false t with
           | [] => [[c]]
           | l :: ls => (c :: l) :: ls
           end
  end.

Definition splitlines (s : str) : list str := splitlines_from false s.

(** [s.count('\n')]. *)
Definition count_nl (s : str) : Z :=
  len (filter (fun c => c =? LF) s).

(** The character class [\x00-\x1F\x7F] of the sanitizer's pattern. *)
Definition is_ctrl (c : char) : bool :=
  ((0 <=? c) && (c <=? 31)) || (c =? 127).

(** [re.sub(r'[\x00-\x1F\x7F]', '', s)]. *)
Definition strip_ctrl (s : str) : str :=
  filter (fun c => negb (is_ctrl c)) s.

(** [str(n)] for a non-negative integer, as f-strings format it. *)
Definition decimal (n : Z) : str :=
  lit (NilZero.string_of_uint (N.to_uint (Z.to_N n))).

End Py.
Import Py.

Notation "x <- r ;; k" := (bind r (fun x => k))
  (at level 61, r at next level, right associativity).

(** ** Fixed tables *)

(** [palette]: hex RGB strings, in the order of the source. *)
Definition palette : list str := map lit
  [ "2d272a";   (* Black *)
    "ff0026";   (* Hair *)
    "cc001e";   (* Hair Shade *)
    "b3001a";   (* Hair Dark *)
    "ee0e46";   (* Eyes *)
    "f6cdcb";   (* Skin *)
    "f79ca1";   (* Skin Shade *)
    "925b6e";   (* Dress *)
    "76445f"    (* Dress Shade *)
  ]%string.

(** [img]: the six faces.  A symbol is [.] (background) or the decimal
    index of a palette colour. *)
Definition face0 : list str := map lit
  [ "...........112...........";
    "..........12.............";
    "..........2..............";
    "...........2.............";
    "..........12.11113...13..";
    ".....12..1111121113.11133";
    "...1112..12111121113.1113";
    "..112.2.11111121111111113";
    "..12.2.111111111111211113";
    "....111111111111111211113";
    "..12.31112111121111111213";
    "..12.32112211122111122123";
    "..112.3112122112211121213";
    "...12.3121161212211112123";
    "...112.322661166621111213";
    "....12.35540516406213.3..";
    "....1121155555555613..13.";
    ".....12.15555655663..123.";
    ".....11..155555556...113.";
    "......11...500056.....3..";
    "............5556......3..";
    ".............666.........";
    "...........776678........";
    "........57717777188......";
    ".......567717171777856...";
    "......56777718177785556..";
    ".....556777771777785556..";
    ".....55677777777785556..."
  ]%string.

Definition face1 : list str := map lit
  [ "...........112...........";
    "..........12.............";
    "..........2..............";
    "...........2.............";
    "..........12.11113...13..";
    ".....12..1111111113.11133";
    "...1112..12111121113.1113";
    "..112.2.11111121111112113";
    "..12.2.111111111111211113";
    "....111111111111111211113";
    "..12.31112111121111111213";
    "..12.32112211112111122123";
    "..112.3112621156211121213";
    "...12.3125562155611112123";
    "...112.325056150552111213";
    "....12.31050550505213.3..";
    "....1121155555555613..13.";
    ".....12.15555555661..123.";
    ".....11..150110566...113.";
    "......11...500556.....3..";
    "............5556......3..";
    ".............666.........";
    "...........776678........";
    "........57717777188......";
    ".......567717171777856...";
    "......56777718177785556..";
    ".....556777771777785556..";
    ".....55677777777785556..."
  ]%string.

Definition face2 : list str := map lit
  [ "...........112...........";
    "..........12.............";
    "..........2..............";
    "...........2.............";
    "..........12.11113...13..";
    ".....12..1111121113.11133";
    "...1112..12111121113.1113";
    "..112.2.11111121111111113";
    "..12.2.111111111111211113";
    "....111111111111111211113";
    "..12.31112111121111111213";
    "..12.32112211122111122123";
    "..112.3112122112211121213";
    "...12.3121161212211112123";
    "...112.322661166621111213";
    "....12.35540516406213.3..";
    "....1121155555555613..13.";
    ".....12.15555555663..123.";
    ".....11..150110556...113.";
    "......11...500556.....3..";
    "............5556......3..";
    ".............666.........";
    "...........776678........";
    "........57717777188......";
    ".......567717171777856...";
    "......56777718177785556..";
    ".....556777771777785556..";
    ".....55677777777785556..."
  ]%string.

Definition face3 : list str := map lit
  [ "...........112...........";
    "..........12.............";
    "..........2..............";
    "...........2.............";
    "..........12.11113...13..";
    ".....12..1111121113.11133";
    "...1112..12111121113.1113";
    "..112.2.11111121111111113";
    "..12.2.111111111111211113";
    "....111111111111111211113";
    "..12.31112111121111111213";
    "..12.32112211122111122123";
    "..112.3112122112211121213";
    "...12.3121161212211112123";
    "...112.322000160001111213";
    "....12.35504516046213.3..";
    "....1121155555555613..13.";
    ".....12.15555655663..123.";
    ".....11..155555556...113.";
    "......11...501056.....3..";
    "............5556......3..";
    ".............666.........";
    "...........776678........";
    "........57717777188......";
    ".......567717171777856...";
    "......56777718177785556..";
    ".....556777771777785556..";
    ".....55677777777785556..."
  ]%string.

Definition face4 : list str := map lit
  [ "...........112...........";
    "..........12.............";
    "..........2..............";
    "...........2.............";
    "..........12.11113...13..";
    ".....12..1111121113.11133";
    "...1112..12111121113.1113";
    "..112.2.11111121111111113";
    "..12.2.111111111111211113";
    "....111111111111111211113";
    "..12.31112111121111111213";
    "..12.32112211122111122123";
    "..112.3112122112211121213";
    "...12.3121011210211112123";
    "...112.320505105021111213";
    "....12.35050550506213.3..";
    "....1121150555505613..13.";
    ".....12.15555555563..123.";
    ".....11..155000556...113.";
    "......11...501056.....3..";
    "............5556......3..";
    ".............666.........";
    "...........776678........";
    "........57717777188......";
    ".......567717171777856...";
    "......56777718177785556..";
    ".....556777771777785556..";
    ".....55677777777785556..."
  ]%string.

Definition face5 : list str := map lit
  [ "...........112...........";
    "..........12.............";
    "..........2..............";
    "...........2.............";
    "..........12.11113...13..";
    ".....12..1111121113.11133";
    "...1112..12111121113.1113";
    "..112.2.11111121111111113";
    "..12.2.111111111111211113";
    "....111111111111111211113";
    "..12.31112111121111111213";
    "..12.32112211122111122123";
    "..112.3112122112211121213";
    "...12.3121111212211112123";
    "...112.320001100021111213";
    "....12.35545555456213.3..";
    "....1121100055000613..13.";
    ".....12.15655655663..123.";
    ".....11..155555556...113.";
    "......11...501056.....3..";
    "............5556......3..";
    ".............666.........";
    "...........776678........";
    "........57717777188......";
    ".......567717171777856...";
    "......56777718177785556..";
    ".....556777771777785556..";
    ".....55677777777785556..."
  ]%string.

Definition img : list (list str) :=
  [face0; face1; face2; face3; face4; face5].

(** ** East-Asian width *)

(** The values of [unicodedata.east_asian_width], each standing for the
    string Python returns. *)
Inductive EAW := EA_F | EA_H | EA_W | EA_Na | EA_A | EA_N.

Definition eaw_name (w : EAW) : str :=
  match w with
  | EA_F => lit "F"
  | EA_H => lit "H"
  | EA_W => lit "W"
  | EA_Na => lit "Na"
  | EA_A => lit "A"
  | EA_N => lit "N"
  end.

Fixpoint starts_with (s p : str) : bool :=
  match p, s with
  | [], _ => true
  | _ :: _, [] => false
  | a :: p', b :: s' => (a =? b) && starts_with s' p'
  end.

(** [p in s] on strings: [p] occurs in [s] as a substring. *)
Fixpoint occurs_in (p s : str) : bool :=
  starts_with s p ||
  match s with
  | [] => false
  | _ :: s' => occurs_in p s'
  end.

(** [w in 'FWA']. *)
Definition in_FWA (w : EAW) : bool := occurs_in (eaw_name w) (lit "FWA").

(** An excerpt of the Unicode table EastAsianWidth.txt, for running the
    program on concrete text: ASCII and Latin-1 controls, Greek capitals,
    kana, CJK unified ideographs, fullwidth and halfwidth forms.  Code
    points outside the listed blocks get [EA_N] here, which is not meant
    to agree with Unicode. *)
Definition eaw_excerpt (c : char) : EAW :=
  if c <? 32 then EA_N
  else if c <? 127 then EA_Na
  else if c <? 161 then EA_N
  else if (913 <=? c) && (c <=? 929) then EA_A
  else if (12353 <=? c) && (c <=? 12438) then EA_W
  else if (12449 <=? c) && (c <=? 12538) then EA_W
  else if (19968 <=? c) && (c <=? 40959) then EA_W
  else if (65281 <=? c) && (c <=? 65376) then EA_F
  else if (65377 <=? c) && (c <=? 65439) then EA_H
  else EA_N.

(** ** The program *)

Definition reset : str := ESC :: lit "[0m".

(** [int(c, 16)] for one hex digit. *)
Definition hexdigit (c : char) : result Z :=
  if (48 <=? c) && (c <=? 57) then Ok (c - 48)
  else if (97 <=? c) && (c <=? 102) then Ok (c - 87)
  else if (65 <=? c) && (c <=? 70) then Ok (c - 55)
  else Raise ValueError.

(** [int(s, 16)] on a string of hex digits (the palette holds nothing
    else); the empty string is a ValueError. *)
Definition int16 (s : str) : result Z :=
  match s with
  | [] => Raise ValueError
  | _ => fold_left (fun acc c => n <- acc;; d <- hexdigit c;; Ok (16 * n + d))
                   s (Ok 0)
  end.

Definition hexToRGB (hex : str) : result (Z * Z * Z) :=
  r <- int16 (slice hex 0 2);;
  g <- int16 (slice hex 2 4);;
  b <- int16 (slice hex 4 6);;
  Ok (r, g, b).

(** [int(color)] for a face symbol. *)
Definition int_of_symbol (color : char) : result Z :=
  if (48 <=? color) && (color <=? 57) then Ok (color - 48)
  else Raise ValueError.

(** The escape sequence [\033[48;2;{r};{g};{b}m] of the palette colour a
    face symbol names. *)
Definition bgColor (color : char) : result str :=
  i <- int_of_symbol color;;
  hex <- index palette i;;
  rgb <- hexToRGB hex;;
  let '(r, g, b) := rgb in
  Ok (ESC :: lit "[48;2;" ++ decimal r ++ lit ";" ++ decimal g ++ lit ";"
          ++ decimal b ++ lit "m").

(** *** Sanitizer (lines 361-365) *)

Definition sanitize (msg : str) : str :=
  let msg := rstrip_nl (replace_tab msg) in
  fold_left (fun msgTmp s => msgTmp ++ strip_ctrl s ++ [LF])
            (splitlines msg) [].

(** Lines 371-372. *)
Definition lineNum_of (msg : str) : Z :=
  let lineNum := count_nl msg in
  if lineNum <=? 0 then 1 else lineNum.

(** *** Face selector (lines 378-387) *)

Definition window (H lineNum : Z) : Z * Z :=
  if lineNum <? 6 then
    let yStart := Z.quot H 2 - Z.quot 6 2 + 2 in
    (yStart, yStart + 6)
  else if lineNum + 2 <? H then
    let yStart := Z.quot H 2 - Z.quot lineNum 2 + 1 in
    (yStart, yStart + lineNum + 1)
  else (0, H).

Definition selectFace (showWhole : bool) (lineNum : Z) (face : list str)
  : list str :=
  if showWhole then face
  else let '(yStart, yEnd) := window (len face) lineNum in
       slice face yStart yEnd.

(** *** Width engine: horizontal margin (lines 393-403) *)

Definition mWidth_of (width : Z) (row0 : str) : Z := width - len row0 * 2.

(** [Some face'] is the face with its margin, [None] the narrow-screen
    exit. *)
Definition rightMargin (width : Z) (face : list str)
  : result (option (list str)) :=
  row0 <- index face 0;;
  let mWidth := mWidth_of width row0 in
  if mWidth >? 0 then
    Ok (Some (map (fun row => times DOT (Z.quot mWidth 2) ++ row) face))
  else Ok None.

(** *** Width engine: message start row (lines 409-442) *)

Section Width.
Variable eaw : char -> EAW.

Definition countChar (msg : str) : Z :=
  fold_left (fun N c => if in_FWA (eaw c) then N + 2 else N + 1) msg 0.

End Width.

(** The inner loop of the scan: two cells for each leading background
    symbol of the row, up to the first other symbol. *)
Fixpoint leading (row : str) (N : Z) : Z :=
  match row with
  | [] => N
  | color :: row' => if color =? DOT then leading row' (N + 2) else N
  end.

Definition range (n : Z) : list Z := map Z.of_nat (seq 0 (Z.to_nat n)).

(** [int(s/2 + 0.5)]. *)
Definition half_up (s : Z) : Z := Z.quot (s + 1) 2.

(** The row the scan reads at step [s]. *)
Definition zigzag (H s : Z) : Z := Z.quot H 2 + half_up s * (-1) ^ s.

(** The start row the scan assigns when it stops at step [s]. *)
Definition candidate (H s : Z) : Z := Z.quot H 2 - half_up s.

(** The scan over the steps [ss] still to do, [N] being the cells counted
    so far; [msgStart] stays 0 when the loop runs out. *)
Fixpoint scan (face : list str) (outN : Z) (ss : list Z) (N : Z) : result Z :=
  match ss with
  | [] => Ok 0
  | s :: ss' =>
      row <- index face (zigzag (len face) s);;
      let N := leading row N in
      if outN <? N then Ok (candidate (len face) s)
      else scan face outN ss' N
  end.

(** [msgStart2]: the vertically centred start row, clamped at 0. *)
Definition centered (H lineNum : Z) : Z :=
  let msgStart2 := Z.quot (H - lineNum + 1) 2 in
  if msgStart2 <? 0 then 0 else msgStart2.

Definition msgStartR (face : list str) (outN lineNum : Z) : result Z :=
  msgStart <- scan face outN (range (len face)) 0;;
  let msgStart2 := centered (len face) lineNum in
  Ok (if msgStart >? msgStart2 then msgStart2 else msgStart).

Definition reverseRows (face : list str) : list str := map (@rev char) face.

Definition msgStartL (face : list str) (lineNum : Z) : Z :=
  let msgStart := len face - lineNum in
  let msgStart2 := centered (len face) lineNum in
  if msgStart >? msgStart2 then msgStart2 else msgStart.

(** *** Renderers (lines 448-544) and the program *)

Inductive Align := AlignL | AlignR.

Record Output := { stdout : str; stderr : str }.

Section Render.
Variable eaw : char -> EAW.

(** One row of face pixels in left mode, two cells each. *)
Fixpoint leftPixels (row : str) (out : str) : result str :=
  match row with
  | [] => Ok out
  | color :: row' =>
      if color =? DOT then leftPixels row' (out ++ reset ++ lit "  ")
      else esc <- bgColor color;;
           leftPixels row' (out ++ esc ++ lit "  ")
  end.

(** The [while x < width] loop of [outLeft]: the text after the pixels of
    one row.  Returns the output and the characters left. *)
Fixpoint leftText (width : Z) (msgChars : str) (x : Z) (out : str)
  : result (str * str) :=
  match msgChars with
  | [] => if x <? width then Raise IndexError else Ok (out, [])
  | c :: rest =>
      if x <? width then
        let w := eaw c in
        if in_FWA w && (x + 1 >=? width) then
          Ok (out ++ times SP (width - x) ++ [LF], msgChars)
        else if c =? LF then
          Ok (out ++ times SP (width - x) ++ [LF], rest)
        else
          leftText width rest (if in_FWA w then x + 2 else x + 1)
                   (out ++ [c])
      else Ok (out, msgChars)
  end.

Fixpoint leftRows (width msgStart : Z) (rows : list str) (l : Z)
    (msgChars out : str) : result (str * str) :=
  match rows with
  | [] => Ok (out, msgChars)
  | row :: rows' =>
      out <- leftPixels row out;;
      let out := out ++ reset in
      if (l <? msgStart) || (len msgChars <=? 0) then
        leftRows width msgStart rows' (l + 1) msgChars (out ++ [LF])
      else
        st <- leftText width msgChars (len row * 2) out;;
        let '(out, msgChars) := st in
        leftRows width msgStart rows' (l + 1) msgChars out
  end.

Definition outLeft (face : list str) (width : Z) (msg : str) (msgStart : Z)
  : result str :=
  st <- leftRows width msgStart face 0 msg reset;;
  let '(out, msgChars) := st in
  Ok (if len msgChars >? 0 then out ++ msgChars ++ [LF; LF] else out).

(** One row of [outRight]: pixels and text interleaved. *)
Fixpoint rightPixels (row : str) (msgok : bool) (msgChars out : str)
  : result (str * str) :=
  match row with
  | [] => Ok (out, msgChars)
  | color :: row' =>
      let msgok := if negb (color =? DOT) then false else msgok in
      esc <- (if color =? DOT then Ok reset else bgColor color);;
      let out := out ++ esc in
      if negb msgok || (len msgChars <=? 0) then
        rightPixels row' msgok msgChars (out ++ lit "  ")
      else
        match msgChars with
        | [] => Raise IndexError
        | outc :: msgChars1 =>
            if outc =? LF then
              rightPixels row' false msgChars1 (out ++ lit "  ")
            else if negb (in_FWA (eaw outc)) then
              match msgChars1 with
              | [] => rightPixels row' msgok [] (out ++ [outc; SP])
              | next :: msgChars2 =>
                  if negb (in_FWA (eaw next)) then
                    if next =? LF then
                      rightPixels row' false msgChars2 (out ++ [outc; SP])
                    else
                      rightPixels row' msgok msgChars2 (out ++ [outc; next])
                  else rightPixels row' msgok msgChars1 (out ++ [outc; SP])
              end
            else rightPixels row' msgok msgChars1 (out ++ [outc])
        end
  end.

Fixpoint rightRows (msgStart : Z) (rows : list str) (l : Z)
    (msgChars out : str) : result (str * str) :=
  match rows with
  | [] => Ok (out, msgChars)
  | row :: rows' =>
      let msgok := if l <? msgStart then false else true in
      st <- rightPixels row msgok msgChars out;;
      let '(out, msgChars) := st in
      rightRows msgStart rows' (l + 1) msgChars (out ++ reset ++ [LF])
  end.

Definition outRight (face : list str) (width : Z) (msg : str) (msgStart : Z)
  : result str :=
  st <- rightRows msgStart face 0 msg reset;;
  let '(out, msgChars) := st in
  Ok (if len msgChars >? 0 then out ++ msgChars ++ [LF; LF] else out).

Definition warning : str := lit "warning: too narrow screen" ++ [LF].

(** The layout the width engine hands to the renderer. *)
Record Layout := { rows : list str; text : str; msgStart : Z }.

(** Lines 361-442: [None] is the narrow-screen exit. *)
Definition layout (showWhole : bool) (imgSeq : Z) (align : Align)
    (width : Z) (msg : str) : result (option Layout) :=
  let msg := sanitize msg in
  let lineNum := lineNum_of msg in
  face <- index img imgSeq;;
  let face := selectFace showWhole lineNum face in
  match align with
  | AlignR =>
      m <- rightMargin width face;;
      match m with
      | None => Ok None
      | Some face =>
          msgStart <- msgStartR face (countChar eaw msg) lineNum;;
          Ok (Some {| rows := face; text := msg; msgStart := msgStart |})
      end
  | AlignL =>
      let face := reverseRows face in
      Ok (Some {| rows := face; text := msg;
                  msgStart := msgStartL face lineNum |})
  end.

(** The program from the sanitizer on: [msg] is the text the input
    resolver obtained, the options are those of the command line and
    [width] is the terminal's column count. *)
Definition main (showWhole : bool) (imgSeq : Z) (align : Align)
    (width : Z) (msg : str) : result Output :=
  lay <- layout showWhole imgSeq align width msg;;
  match lay with
  | None => Ok {| stdout := []; stderr := warning |}
  | Some lay =>
      out <- match align with
             | AlignL => outLeft (rows lay) width (text lay) (msgStart lay)
             | AlignR => outRight (rows lay) width (text lay) (msgStart lay)
             end;;
      Ok {| stdout := out ++ reset; stderr := [] |}
  end.

End Render.

(** ** Command line and message source (lines 40-58, 315-352) *)

Module Cli.

Definition version : str := lit "31.0".

(** [usage]: the text written to the diagnostic stream, with the newline
    [print] adds. *)
Definition usage (argv0 ver : str) : str :=
  argv0 ++ lit " --- TETO's echo Version " ++ ver ++ [LF]
  ++ [LF]
  ++ lit "usage: " ++ argv0
  ++ lit " [-0~5|-q|-d|-l|-r|-f text-file] [--] [message ... ]" ++ [LF]
  ++ [LF]
  ++ lit "  -0 ~ -5      ... change face (default: -0)" ++ [LF]
  ++ lit "  -q           ... output no message (show face only)" ++ [LF]
  ++ lit "  -d           ... reduce Teto's vertical width" ++ [LF]
  ++ lit "  -l           ... position face to the left" ++ [LF]
  ++ lit "  -r           ... position face to the right (default)" ++ [LF]
  ++ lit "  -f text-file ... read message from text-file" ++ [LF]
  ++ lit "  --           ... end of command line options" ++ [LF]
  ++ [LF].

(** The variables the option loop sets. *)
Record Options := {
  inFile : str;
  quiet : bool;
  showWhole : bool;
  imgSeq : Z;
  align : Align
}.

Definition defaults : Options :=
  {| inFile := []; quiet := false; showWhole := true; imgSeq := 0;
     align := AlignR |}.

Fixpoint str_eqb (a b : str) : bool :=
  match a, b with
  | [], [] => true
  | x :: a', y :: b' => (x =? y) && str_eqb a' b'
  | _, _ => false
  end.

(** [re.match('^-', arg)]. *)
Definition starts_dash (arg : str) : bool :=
  match arg with
  | c :: _ => c =? 45
  | [] => false
  end.

(** [re.match('^-[0-' + str(len(img)-1) + ']$', arg)] and, on a match,
    [abs(int(arg))].  The class is [0-5]; [$] also matches before a final
    newline, which [int] ignores. *)
Definition face_option (arg : str) : option Z :=
  match arg with
  | dash :: d :: tail =>
      if (dash =? 45) && (48 <=? d) && (d <=? 48 + (len img - 1))
         && (str_eqb tail [] || str_eqb tail [LF])
      then Some (Z.abs (- (d - 48)))
      else None
  | _ => None
  end.

(** The outcome of the option loop: the options and the arguments left,
    or the call of [usage]. *)
Inductive Parsed :=
| Go (o : Options) (rest : list str)
| Usage.

(** The [while] loop over [sys.argv] (after [argv0] is popped). *)
Fixpoint parse (o : Options) (argv : list str) : Parsed :=
  match argv with
  | [] => Go o []
  | arg :: rest =>
      if negb (starts_dash arg) then Go o argv
      else if str_eqb arg (lit "--") then Go o rest
      else if str_eqb arg (lit "-l") then
        parse {| inFile := inFile o; quiet := quiet o;
                 showWhole := showWhole o; imgSeq := imgSeq o;
                 align := AlignL |} rest
      else if str_eqb arg (lit "-r") then
        parse {| inFile := inFile o; quiet := quiet o;
                 showWhole := showWhole o; imgSeq := imgSeq o;
                 align := AlignR |} rest
      else if str_eqb arg (lit "-q") then
        parse {| inFile := inFile o; quiet := true;
                 showWhole := showWhole o; imgSeq := imgSeq o;
                 align := align o |} rest
      else if str_eqb arg (lit "-d") then
        parse {| inFile := inFile o; quiet := quiet o;
                 showWhole := false; imgSeq := imgSeq o;
                 align := align o |} rest
      else
        match str_eqb arg (lit "-f"), rest with
        | true, file :: rest' =>
            parse {| inFile := file; quiet := quiet o;
                     showWhole := showWhole o; imgSeq := imgSeq o;
                     align := align o |} rest'
        | _, _ =>
            match face_option arg with
            | Some n =>
                parse {| inFile := inFile o; quiet := quiet o;
                         showWhole := showWhole o; imgSeq := n;
                         align := align o |} rest
            | None => Usage
            end
        end
  end.

(** [' '.join(argv)]. *)
Fixpoint join_sp (words : list str) : str :=
  match words with
  | [] => []
  | [w] => w
  | w :: ws => w ++ SP :: join_sp ws
  end.

(** The loop [msg += input() + "\n"] up to EOFError; [lines] are the
    strings [input()] returns. *)
Definition read_stdin (lines : list str) : str :=
  fold_left (fun msg line => msg ++ line ++ [LF]) lines [].

(** Lines 337-352.  [file] is the text [f.read()] gives for a path, or
    [None] when opening or reading it raises. *)
Definition resolve (o : Options) (argv : list str)
    (file : str -> option str) (stdin : list str) : option str :=
  if quiet o then Some []
  else if negb (str_eqb (inFile o) []) then file (inFile o)
  else if len argv >? 0 then Some (join_sp argv)
  else Some (read_stdin stdin).

(** How a run ends: by [exit()] or at the end of the script, with an
    uncaught exception of the layout or the renderer, or with the
    exception of a file that cannot be read. *)
Inductive Outcome :=
| Exited (o : Output)
| Uncaught (e : exn)
| FileError.

Section Run.
Variable eaw : char -> EAW.

(** The whole script; [argv] is [sys.argv] without its first element
    [argv0]. *)
Definition techo (argv0 : str) (argv : list str)
    (file : str -> option str) (stdin : list str) (width : Z) : Outcome :=
  match parse defaults argv with
  | Usage => Exited {| stdout := []; stderr := usage argv0 version |}
  | Go o rest =>
      match resolve o rest file stdin with
      | None => FileError
      | Some msg =>
          match main eaw (showWhole o) (imgSeq o) (align o) width msg with
          | Ok out => Exited out
          | Raise e => Uncaught e
          end
      end
  end.

End Run.

End Cli.


(** ** The layout in the specification's words *)

(** The number of leading background symbols of a row. *)
Fixpoint dots (row : str) : Z :=
  match row with
  | [] => 0
  | color :: row' => if color =? DOT then 1 + dots row' else 0
  end.

Definition row_at (face : list str) (l : Z) : str :=
  match index face l with
  | Ok row => row
  | Raise _ => []
  end.

(** The running total after the first [n] steps of the zig-zag order:
    two cells for each leading background column of the rows visited. *)
Fixpoint total (face : list str) (n : nat) : Z :=
  match n with
  | O => 0
  | S k => total face k
           + 2 * dots (row_at face (zigzag (len face) (Z.of_nat k)))
  end.

(** The first candidate as the specification words it: the row visited
    at the first step whose running total meets or exceeds [outN]. *)
Definition met_row (face : list str) (outN : Z) : option Z :=
  option_map (zigzag (len face))
    (find (fun s => outN <=? total face (S (Z.to_nat s)))
          (range (len face))).

(** The face of index 0 with the margin of an 80-column terminal. *)
Definition face0_at_80 : list str :=
  map (fun row => times DOT 15 ++ row) face0.

(** The start row as the specification words it: the smaller of the
    first row met and the clamped centred row. *)
Definition claimed_start (face : list str) (outN lineNum : Z) : option Z :=
  option_map (fun c => Z.min c (Z.max 0 ((len face - lineNum + 1) / 2)))
             (met_row face outN).

(** The start row of a layout, when there is one. *)
Definition start_of (r : result (option Layout)) : option Z :=
  match r with
  | Ok (Some lay) => Some (msgStart lay)
  | _ => None
  end.

(** The display width of one character in the specification's words:
    2 for Fullwidth, Wide and Ambiguous, 1 otherwise. *)
Definition charWidth (eaw : char -> EAW) (c : char) : Z :=
  match eaw c with
  | EA_F | EA_W | EA_A => 2
  | _ => 1
  end.

(** A face symbol the renderer can draw: background or a palette index. *)
Definition symbol_ok (color : char) : bool :=
  (color =? DOT) || ((48 <=? color) && (color <? 48 + len palette)).

Definition face_ok (face : list str) : bool :=
  forallb (forallb symbol_ok) face.

(** What the per-character filter keeps when newlines stay in place. *)
Definition keeps (c : char) : bool := (c =? LF) || negb (is_ctrl c).

(** The sanitizer in the specification's words: trailing newline removed,
    tabs replaced, control characters removed, newlines kept. *)
Definition sanitize_as_specified (msg : str) : str :=
  filter keeps (rstrip_nl (replace_tab msg)).

(** The text ends in an empty line: it is a lone newline or ends in two. *)
Definition blank_tail (s : str) : bool :=
  match rev s with
  | [] => false
  | [a] => a =? LF
  | a :: b :: _ => (a =? LF) && (b =? LF)
  end.

(** The tab and control-character part of the sanitizer alone, without
    the [rstrip]: tabs replaced, lines split, each line stripped and
    closed with a newline. *)
Definition strip_lines (msg : str) : str :=
  concat (map (fun l => strip_ctrl l ++ [LF]) (splitlines (replace_tab msg))).

(** A message of [n] lines, each the one letter a. *)
Definition lines_of_a (n : nat) : str := concat (repeat (lit "a" ++ [LF]) n).

(** A text whose only line boundary is the newline. *)
Definition only_lf (s : str) : bool :=
  forallb (fun c => (c =? LF) || negb (is_linebreak c)) s.

(** A character of sanitized text: the newline, or neither a control
    character nor a line boundary. *)
Definition clean (c : char) : bool :=
  (c =? LF) || negb (is_ctrl c || is_linebreak c).

(** The text is not empty and its last character is not a newline. *)
Fixpoint unterminated (s : str) : bool :=
  match s with
  | [] => false
  | c :: t =>
      match t with
      | [] => negb (c =? LF)
      | _ :: _ => unterminated t
      end
  end.

(** * Properties *)

(** ** Arithmetic of the float expressions *)

Lemma quot2_div (n : Z) : 0 <= n -> Z.quot n 2 = n / 2.
Proof. intros Hn. apply Z.quot_div_nonneg; lia. Qed.

Lemma pow_m1_even (s : Z) : 0 <= s -> Z.even s = true -> (-1) ^ s = 1.
Proof.
  intros Hs He. apply Z.even_spec in He.
  change (-1) with (- (1)). rewrite Z.pow_opp_even by assumption.
  apply Z.pow_1_l; assumption.
Qed.

Lemma pow_m1_odd (s : Z) : 0 <= s -> Z.even s = false -> (-1) ^ s = -1.
Proof.
  intros Hs He. rewrite <- Z.negb_odd in He.
  apply negb_false_iff, Z.odd_spec in He.
  change (-1) with (- (1)) at 1. rewrite Z.pow_opp_odd by assumption.
  rewrite Z.pow_1_l; [reflexivity | assumption].
Qed.

Lemma zigzag_even (H s : Z) :
  0 <= H -> 0 <= s -> Z.even s = true -> zigzag H s = H / 2 + s / 2.
Proof.
  intros HH Hs He. unfold zigzag, half_up.
  rewrite pow_m1_even, !quot2_div by (assumption || lia).
  apply Z.even_spec in He. destruct He as [k ->].
  Z.to_euclidean_division_equations; lia.
Qed.

Lemma zigzag_odd (H s : Z) :
  0 <= H -> 0 <= s -> Z.even s = false -> zigzag H s = H / 2 - (s + 1) / 2.
Proof.
  intros HH Hs He. unfold zigzag, half_up.
  rewrite pow_m1_odd, !quot2_div by (assumption || lia). lia.
Qed.

Lemma candidate_div (H s : Z) :
  0 <= H -> 0 <= s -> candidate H s = H / 2 - (s + 1) / 2.
Proof.
  intros HH Hs. unfold candidate, half_up. rewrite !quot2_div by lia.
  reflexivity.
Qed.

Lemma zigzag_bounds (H s : Z) :
  1 <= H -> 0 <= s < H -> 0 <= zigzag H s < H.
Proof.
  intros HH Hs. destruct (Z.even s) eqn:He.
  - rewrite zigzag_even by (assumption || lia).
    apply Z.even_spec in He. destruct He as [k ->].
    Z.to_euclidean_division_equations; lia.
  - rewrite zigzag_odd by (assumption || lia).
    rewrite <- Z.negb_odd in He. apply negb_false_iff, Z.odd_spec in He.
    destruct He as [k ->].
    Z.to_euclidean_division_equations; lia.
Qed.

Lemma candidate_nonneg (H s : Z) :
  1 <= H -> 0 <= s < H -> 0 <= candidate H s.
Proof.
  intros HH Hs. rewrite candidate_div by lia.
  Z.to_euclidean_division_equations; lia.
Qed.

(** ** Indexing *)

Lemma index_in_range {A} (l : list A) (i : Z) :
  0 <= i < len l -> exists x, index l i = Ok x /\ nth_error l (Z.to_nat i) = Some x.
Proof.
  intros Hi. unfold index, len in *.
  destruct (i <? 0) eqn:Hneg; [apply Z.ltb_lt in Hneg; lia |].
  rewrite Hneg.
  destruct (nth_error l (Z.to_nat i)) as [x |] eqn:Hn.
  - exists x. split; reflexivity.
  - apply nth_error_None in Hn. lia.
Qed.

Lemma in_range (n s : Z) : In s (range n) <-> 0 <= s < n.
Proof.
  unfold range. rewrite in_map_iff. split.
  - intros (k & <- & Hk). apply in_seq in Hk. lia.
  - intros Hs. exists (Z.to_nat s). split; [lia |]. apply in_seq. lia.
Qed.

(** ** The scan of the right-alignment start row *)

Lemma scan_total (face : list str) (outN : Z) (ss : list Z) :
  (forall s, In s ss -> 0 <= s < len face) ->
  forall N, exists r, scan face outN ss N = Ok r /\ 0 <= r.
Proof.
  induction ss as [| s ss IH]; intros Hss N; simpl.
  - exists 0. split; [reflexivity | lia].
  - assert (Hs : 0 <= s < len face) by (apply Hss; left; reflexivity).
    destruct (index_in_range face (zigzag (len face) s)) as (row & -> & _).
    { apply zigzag_bounds; lia. }
    simpl. destruct (outN <? leading row N).
    + eexists. split; [reflexivity |]. apply candidate_nonneg; lia.
    + apply IH. intros s' Hs'. apply Hss. right. assumption.
Qed.

(** C10: at every step [s] of the scan over a face of [H >= 1] rows the
    zig-zag row index [int(H/2) + int(s/2 + 0.5) * (-1)^s] lies in
    [0, H), so the row lookup succeeds, the start row the scan would
    assign at that step is not negative, and the whole scan returns a
    start row that is not negative. *)
Theorem scan_rows_in_bounds (face : list str) (outN s : Z) :
  1 <= len face -> 0 <= s < len face ->
  0 <= zigzag (len face) s < len face /\
  (exists row, index face (zigzag (len face) s) = Ok row) /\
  0 <= candidate (len face) s /\
  (exists r, scan face outN (range (len face)) 0 = Ok r /\ 0 <= r).
Proof.
  intros HH Hs. repeat split.
  - apply zigzag_bounds; assumption.
  - apply zigzag_bounds; assumption.
  - destruct (index_in_range face (zigzag (len face) s)) as (row & Hrow & _).
    + apply zigzag_bounds; assumption.
    + exists row. exact Hrow.
  - apply candidate_nonneg; assumption.
  - apply scan_total. intros s'. apply in_range.
Qed.

Lemma scan_rows_in_bounds_witness :
  0 <= zigzag (len face0) 27 < len face0 /\
  (exists row, index face0 (zigzag (len face0) 27) = Ok row) /\
  0 <= candidate (len face0) 27 /\
  (exists r, scan face0 40 (range (len face0)) 0 = Ok r /\ 0 <= r).
Proof.
  apply (scan_rows_in_bounds face0 40 27);
    change (len face0) with 28; lia.
Defined.

Lemma leading_dots (row : str) (N : Z) : leading row N = N + 2 * dots row.
Proof.
  revert N. induction row as [| color row IH]; intros N; cbn [leading dots].
  - lia.
  - destruct (color =? DOT); [rewrite IH |]; lia.
Qed.

Lemma centered_max (H lineNum : Z) :
  centered H lineNum = Z.max 0 ((H - lineNum + 1) / 2).
Proof.
  unfold centered.
  destruct (Z.quot (H - lineNum + 1) 2 <? 0) eqn:E;
    [apply Z.ltb_lt in E | apply Z.ltb_ge in E];
    Z.to_euclidean_division_equations; lia.
Qed.

(** The loop from step [k] on, entered with the running total of the
    first [k] steps: it stops at the first step whose total exceeds
    [outN]. *)
Lemma scan_stops (face : list str) (outN : Z) (s : nat) :
  outN < total face (S s) ->
  forall n k,
    (k <= s < k + n)%nat -> (k + n <= length face)%nat ->
    (forall i, (k <= i < s)%nat -> total face (S i) <= outN) ->
    scan face outN (map Z.of_nat (seq k n)) (total face k)
    = Ok (candidate (len face) (Z.of_nat s)).
Proof.
  intros Hs. induction n as [| n IH]; intros k Hk Hlen Hbelow; [lia |].
  simpl seq. simpl map. simpl scan.
  destruct (index_in_range face (zigzag (len face) (Z.of_nat k)))
    as (row & Hrow & _).
  { apply zigzag_bounds; unfold len; lia. }
  rewrite Hrow. simpl.
  assert (Htot : leading row (total face k) = total face (S k)).
  { rewrite leading_dots. simpl. unfold row_at. rewrite Hrow. reflexivity. }
  rewrite Htot.
  destruct (outN <? total face (S k)) eqn:E.
  - apply Z.ltb_lt in E.
    destruct (Nat.eq_dec k s) as [-> | Hne]; [reflexivity |].
    specialize (Hbelow k). lia.
  - apply Z.ltb_ge in E.
    assert (k <> s) by (intros ->; lia).
    apply IH; [lia | lia |]. intros i Hi. apply Hbelow. lia.
Qed.

Lemma scan_runs_out (face : list str) (outN : Z) :
  forall n k,
    (k + n <= length face)%nat ->
    (forall i, (k <= i < k + n)%nat -> total face (S i) <= outN) ->
    scan face outN (map Z.of_nat (seq k n)) (total face k) = Ok 0.
Proof.
  induction n as [| n IH]; intros k Hlen Hbelow; [reflexivity |].
  simpl seq. simpl map. simpl scan.
  destruct (index_in_range face (zigzag (len face) (Z.of_nat k)))
    as (row & Hrow & _).
  { apply zigzag_bounds; unfold len; lia. }
  rewrite Hrow. simpl.
  assert (Htot : leading row (total face k) = total face (S k)).
  { rewrite leading_dots. simpl. unfold row_at. rewrite Hrow. reflexivity. }
  rewrite Htot.
  destruct (outN <? total face (S k)) eqn:E.
  - apply Z.ltb_lt in E. specialize (Hbelow k). lia.
  - apply IH; [lia |]. intros i Hi. apply Hbelow. lia.
Qed.

Lemma range_len (face : list str) :
  range (len face) = map Z.of_nat (seq 0 (length face)).
Proof. unfold range, len. rewrite Nat2Z.id. reflexivity. Qed.

Lemma min_of_gtb (a b : Z) : (if a >? b then b else a) = Z.min a b.
Proof.
  rewrite Z.gtb_ltb. destruct (b <? a) eqn:E;
    [apply Z.ltb_lt in E | apply Z.ltb_ge in E]; lia.
Qed.

(** C1, as the code has it: the first candidate is [H/2 - ceil(s/2)]
    (the upper row of the band scanned so far) for the first zig-zag
    step [s] whose running total of leading background columns, two cells
    each, strictly exceeds the message's display width, and 0 when no
    step does; the start row is the smaller of that candidate and
    [max(0, floor(H/2 - L/2 + 0.5))]. *)
Theorem right_start_row (face : list str) (outN lineNum : Z) :
  (forall s : nat,
      (s < length face)%nat ->
      outN < total face (S s) ->
      (forall i, (i < s)%nat -> total face (S i) <= outN) ->
      scan face outN (range (len face)) 0
      = Ok (len face / 2 - (Z.of_nat s + 1) / 2) /\
      msgStartR face outN lineNum
      = Ok (Z.min (len face / 2 - (Z.of_nat s + 1) / 2)
                  (Z.max 0 ((len face - lineNum + 1) / 2)))) /\
  ((forall s : nat, (s < length face)%nat -> total face (S s) <= outN) ->
   scan face outN (range (len face)) 0 = Ok 0 /\
   msgStartR face outN lineNum
   = Ok (Z.min 0 (Z.max 0 ((len face - lineNum + 1) / 2)))).
Proof.
  split.
  - intros s Hlt Hs Hbelow.
    assert (Hscan : scan face outN (range (len face)) 0
                    = Ok (len face / 2 - (Z.of_nat s + 1) / 2)).
    { rewrite range_len. change 0 with (total face 0) at 1.
      rewrite (scan_stops face outN s Hs (length face) 0%nat);
        [| lia | lia | intros i Hi; apply Hbelow; lia].
      rewrite candidate_div by (unfold len; lia). reflexivity. }
    split; [exact Hscan |].
    unfold msgStartR. rewrite Hscan. cbn [bind].
    rewrite min_of_gtb, centered_max. reflexivity.
  - intros Hbelow.
    assert (Hscan : scan face outN (range (len face)) 0 = Ok 0).
    { rewrite range_len. change 0 with (total face 0) at 1.
      apply scan_runs_out; [lia |]. intros i Hi. apply Hbelow. lia. }
    split; [exact Hscan |].
    unfold msgStartR. rewrite Hscan. cbn [bind].
    rewrite min_of_gtb, centered_max. reflexivity.
Qed.

Lemma right_start_row_witness :
  (scan face0_at_80 36 (range (len face0_at_80)) 0 = Ok 13 /\
   msgStartR face0_at_80 36 1 = Ok 13) /\
  (scan face0_at_80 100000 (range (len face0_at_80)) 0 = Ok 0 /\
   msgStartR face0_at_80 100000 1 = Ok 0).
Proof.
  split.
  - refine (proj1 (right_start_row face0_at_80 36 1) 1%nat _ _ _).
    + vm_compute. lia.
    + vm_compute. reflexivity.
    + intros i Hi. assert (i = 0%nat) as -> by lia.
      vm_compute. discriminate.
  - refine (proj2 (right_start_row face0_at_80 100000 1) _).
    intros s Hs.
    do 28 (destruct s as [| s]; [vm_compute; discriminate |]).
    vm_compute in Hs. lia.
Defined.

(** C1 as stated fails on an 80-column terminal with face 0.  A line of
    35 narrow characters has display width 36 with its newline; the
    centre row 14, visited first, already brings the running total to 36,
    so the stated rule starts at row min(14, 14) = 14, but the code goes
    on (36 < 36 is false) and starts at row 13.  With 79 characters the
    total first reaches 80 at row 15 (step 2), where the code assigns
    14 - 1 = 13, the row above the centre, and not the row visited. *)
Lemma first_met_row_is_not_start_row :
  rightMargin 80 face0 = Ok (Some face0_at_80) /\
  countChar eaw_excerpt (sanitize (repeat 97 35)) = 36 /\
  met_row face0_at_80 36 = Some 14 /\
  claimed_start face0_at_80 36 1 = Some 14 /\
  start_of (layout eaw_excerpt true 0 AlignR 80 (repeat 97 35)) = Some 13 /\
  start_of (layout eaw_excerpt true 0 AlignR 80 (repeat 97 35))
  <> claimed_start face0_at_80 36 1 /\
  countChar eaw_excerpt (sanitize (repeat 97 79)) = 80 /\
  met_row face0_at_80 80 = Some 15 /\
  claimed_start face0_at_80 80 1 = Some 14 /\
  start_of (layout eaw_excerpt true 0 AlignR 80 (repeat 97 79)) = Some 13.
Proof. vm_compute. repeat split; (reflexivity || discriminate). Qed.

(** ** The palette *)

(** C6 as stated fails: the palette has 9 entries and no colour of
    index 9. *)
Lemma palette_has_no_tenth_colour :
  len palette <> 10 /\ index palette 9 = Raise IndexError.
Proof. vm_compute. split; [discriminate | reflexivity]. Qed.

Lemma small_cases (i n : Z) (P : Z -> Prop) :
  0 <= i < n ->
  (forall k : nat, (k < Z.to_nat n)%nat -> P (Z.of_nat k)) -> P i.
Proof.
  intros Hi HP. rewrite <- (Z2Nat.id i) by lia. apply HP. lia.
Qed.

(** C6, as the code has it: the palette is an ordered sequence of
    exactly 9 colours, indexed 0 to 8, each of them three components in
    0..255 (24 bits); and every symbol of the six faces is the background
    or an index into it. *)
Theorem palette_nine_colours :
  len palette = 9 /\
  (forall i, 0 <= i <= 8 ->
     exists hex r g b,
       index palette i = Ok hex /\ hexToRGB hex = Ok (r, g, b) /\
       0 <= r <= 255 /\ 0 <= g <= 255 /\ 0 <= b <= 255) /\
  forallb face_ok img = true.
Proof.
  split; [reflexivity |]. split; [| vm_compute; reflexivity].
  intros i Hi. apply (small_cases i 9); [lia |].
  intros k Hk.
  do 9 (destruct k as [| k];
        [vm_compute; do 4 eexists; repeat split; discriminate |]).
  vm_compute in Hk. lia.
Qed.

Lemma palette_nine_colours_witness :
  exists hex r g b,
    index palette 8 = Ok hex /\ hexToRGB hex = Ok (r, g, b) /\
    0 <= r <= 255 /\ 0 <= g <= 255 /\ 0 <= b <= 255.
Proof.
  apply (proj1 (proj2 palette_nine_colours) 8). lia.
Defined.

(** ** Display width *)

(** The substring test [w in 'FWA'] holds for the three one-letter names
    only. *)
Lemma in_FWA_width (eaw : char -> EAW) (c : char) :
  (if in_FWA (eaw c) then 2 else 1) = charWidth eaw c.
Proof. unfold charWidth. destruct (eaw c); reflexivity. Qed.

Lemma countChar_from (eaw : char -> EAW) (msg : str) (N : Z) :
  fold_left (fun N c => if in_FWA (eaw c) then N + 2 else N + 1) msg N
  = N + fold_right Z.add 0 (map (charWidth eaw) msg).
Proof.
  revert N. induction msg as [| c msg IH]; intros N; simpl.
  - lia.
  - rewrite IH, <- in_FWA_width. destruct (in_FWA (eaw c)); lia.
Qed.

Lemma width_sum_const (eaw : char -> EAW) (msg : str) (w : Z) :
  (forall c, In c msg -> charWidth eaw c = w) ->
  fold_right Z.add 0 (map (charWidth eaw) msg) = w * len msg.
Proof.
  unfold len. induction msg as [| c msg IH]; intros Hw.
  - simpl. lia.
  - cbn [map fold_right length]. rewrite (Hw c), IH.
    + lia.
    + intros c' Hc'. apply Hw. right. assumption.
    + left. reflexivity.
Qed.

(** C8: [countChar] is the sum of the per-character widths, 2 for each
    character classified Fullwidth, Wide or Ambiguous and 1 otherwise;
    so it is N for a string of N ASCII characters (which the Unicode
    table classifies Na or N) and 2N for a string of N Fullwidth or Wide
    characters. *)
Theorem countChar_widths (eaw : char -> EAW) (msg : str) :
  countChar eaw msg = fold_right Z.add 0 (map (charWidth eaw) msg) /\
  ((forall c, 0 <= c < 128 -> eaw c = EA_Na \/ eaw c = EA_N) ->
   (forall c, In c msg -> 0 <= c < 128) ->
   countChar eaw msg = len msg) /\
  ((forall c, In c msg -> eaw c = EA_F \/ eaw c = EA_W) ->
   countChar eaw msg = 2 * len msg).
Proof.
  assert (Hsum : countChar eaw msg
                 = fold_right Z.add 0 (map (charWidth eaw) msg)).
  { unfold countChar. rewrite countChar_from. lia. }
  split; [exact Hsum |]. split.
  - intros Htable Hascii. rewrite Hsum, (width_sum_const eaw msg 1); [lia |].
    intros c Hc. unfold charWidth.
    destruct (Htable c (Hascii c Hc)) as [-> | ->]; reflexivity.
  - intros Hwide. rewrite Hsum. apply width_sum_const.
    intros c Hc. unfold charWidth.
    destruct (Hwide c Hc) as [-> | ->]; reflexivity.
Qed.

Lemma eaw_excerpt_ascii (c : char) :
  0 <= c < 128 -> eaw_excerpt c = EA_Na \/ eaw_excerpt c = EA_N.
Proof.
  intros Hc. unfold eaw_excerpt.
  destruct (c <? 32); [right; reflexivity |].
  destruct (c <? 127); [left; reflexivity |].
  destruct (c <? 161) eqn:E; [right; reflexivity |].
  apply Z.ltb_ge in E. lia.
Qed.

Lemma countChar_widths_witness :
  countChar eaw_excerpt (lit "hello") = len (lit "hello") /\
  countChar eaw_excerpt [12354; 65313] = 2 * len [12354; 65313].
Proof.
  split.
  - apply (proj1 (proj2 (countChar_widths eaw_excerpt (lit "hello")))).
    + exact eaw_excerpt_ascii.
    + simpl. intros c Hc. repeat (destruct Hc as [<- | Hc]; [lia |]).
      destruct Hc.
  - apply (proj2 (proj2 (countChar_widths eaw_excerpt [12354; 65313]))).
    simpl. intros c [<- | [<- | []]]; [right | left]; reflexivity.
Defined.

(** ** The face selector's window *)

Lemma len_slice {A} (l : list A) (a b : Z) :
  len (slice l a b)
  = Z.max 0 (Z.min (slice_bound (len l) b - slice_bound (len l) a)
                   (len l - slice_bound (len l) a)).
Proof.
  unfold slice, len. rewrite length_firstn, length_skipn.
  assert (0 <= slice_bound (Z.of_nat (length l)) a).
  { unfold slice_bound. destruct (a <? 0) eqn:E; [lia |].
    apply Z.ltb_ge in E. lia. }
  lia.
Qed.

Lemma slice_bound_in (n i : Z) : 0 <= i <= n -> slice_bound n i = i.
Proof.
  intros Hi. unfold slice_bound.
  destruct (i <? 0) eqn:E; [apply Z.ltb_lt in E |]; lia.
Qed.

(** Apart from 25-line messages the window of a 28-row face lies inside
    the face and has the rows the specification counts. *)
Lemma window_28 (L : Z) :
  1 <= L -> L <> 25 ->
  let '(yStart, yEnd) := window 28 L in
  0 <= yStart <= yEnd /\ yEnd <= 28 /\
  (L < 6 -> yStart = 28 / 2 - 3 + 2 /\ yEnd - yStart = 6) /\
  (6 <= L -> L + 2 < 28 ->
   yStart = 28 / 2 - L / 2 + 1 /\ yEnd - yStart = L + 1) /\
  (6 <= L -> 28 <= L + 2 -> yStart = 0 /\ yEnd = 28).
Proof.
  intros HL Hne. unfold window.
  destruct (L <? 6) eqn:E6; [apply Z.ltb_lt in E6 | apply Z.ltb_ge in E6].
  - cbn. lia.
  - destruct (L + 2 <? 28) eqn:E28;
      [apply Z.ltb_lt in E28 | apply Z.ltb_ge in E28].
    + rewrite (quot2_div L) by lia. change (Z.quot 28 2) with 14.
      change (28 / 2) with 14.
      Z.to_euclidean_division_equations; lia.
    + lia.
Qed.

Lemma selectFace_28 (face : list str) (L : Z) :
  len face = 28 -> 1 <= L -> L <> 25 ->
  let '(yStart, yEnd) := window 28 L in
  len (selectFace false L face) = yEnd - yStart.
Proof.
  intros HH HL Hne. pose proof (window_28 L HL Hne) as Hw.
  unfold selectFace. rewrite HH.
  destruct (window 28 L) as [yStart yEnd].
  rewrite len_slice, HH, !slice_bound_in by lia. lia.
Qed.

Example window_3_and_20_lines :
  len (selectFace false 3 face0) = 6 /\ len (selectFace false 20 face0) = 21.
Proof. vm_compute. split; reflexivity. Qed.

(** C2 fails for a 25-line message on each of the 28-row faces: the
    guard [lineNum + 2 < H] passes (27 < 28), the window computed is
    [3, 29), and the slice is cut at the last row, so the face keeps 25
    rows and not the L + 1 = 26 the window was sized for. *)
Theorem window_25_lines_is_cut :
  lineNum_of (sanitize (lines_of_a 25)) = 25 /\
  window 28 25 = (3, 29) /\
  map (fun face => len (selectFace false 25 face)) img
  = [25; 25; 25; 25; 25; 25] /\
  selectFace false 25 face0 = skipn 3 face0.
Proof. vm_compute. repeat split; reflexivity. Qed.

(** C3 fails at the same input: the end index 29 computed for a 25-line
    message is past the 28 rows of the bitmap. *)
Theorem window_25_lines_end_past_bitmap :
  lineNum_of (sanitize (lines_of_a 25)) = 25 /\
  map (fun face => window (len face) 25) img
  = [(3, 29); (3, 29); (3, 29); (3, 29); (3, 29); (3, 29)] /\
  map (fun face => len face) img = [28; 28; 28; 28; 28; 28].
Proof. vm_compute. repeat split; reflexivity. Qed.

(** ** Left alignment *)

Lemma len_reverseRows (face : list str) : len (reverseRows face) = len face.
Proof. unfold reverseRows, len. rewrite length_map. reflexivity. Qed.

Lemma msgStartL_min (face : list str) (L : Z) :
  msgStartL face L
  = Z.min (len face - L) (Z.max 0 ((len face - L + 1) / 2)).
Proof. unfold msgStartL. rewrite min_of_gtb, centered_max. reflexivity. Qed.

(** C4 as stated fails when the message has more lines than the face has
    rows: with the whole face 0 (28 rows) and a 30-line message the code
    leaves the start row at 28 - 30 = -2, where the stated rule gives
    min(max(0, -2), 0) = 0. *)
Lemma negative_start_row_on_left :
  lineNum_of (sanitize (lines_of_a 30)) = 30 /\
  start_of (layout eaw_excerpt true 0 AlignL 80 (lines_of_a 30))
  = Some (-2) /\
  Z.min (Z.max 0 (28 - 30)) (Z.max 0 ((28 - 30 + 1) / 2)) = 0 /\
  start_of (layout eaw_excerpt true 0 AlignL 80 (lines_of_a 30))
  <> Some (Z.min (Z.max 0 (28 - 30)) (Z.max 0 ((28 - 30 + 1) / 2))).
Proof. vm_compute. repeat split; (reflexivity || discriminate). Qed.

(** C4, as the code has it: in left alignment every face row is
    reversed character by character, and the start row is the smaller of
    [H - L] (not clamped) and the clamped centred row
    [max(0, floor(H/2 - L/2 + 0.5))]; it is never below 0 as long as the
    message has no more lines than the face has rows, where it is
    [floor((H - L + 1) / 2)], and is [H - L < 0] otherwise. *)
Theorem left_start_row (eaw : char -> EAW) (showWhole : bool)
    (imgSeq width : Z) (raw : str) (face : list str) :
  index img imgSeq = Ok face ->
  let msg := sanitize raw in
  let L := lineNum_of msg in
  let win := selectFace showWhole L face in
  let H := len win in
  let start := Z.min (H - L) (Z.max 0 ((H - L + 1) / 2)) in
  layout eaw showWhole imgSeq AlignL width raw
  = Ok (Some {| rows := map (@rev char) win; text := msg;
                msgStart := start |}) /\
  (0 <= start <-> L <= H) /\
  start = (if H <? L then H - L else (H - L + 1) / 2).
Proof.
  intros Hface msg L win H start. split; [| split].
  - unfold layout. rewrite Hface. simpl.
    fold msg. fold L. fold win.
    rewrite msgStartL_min, len_reverseRows. reflexivity.
  - subst start. split; intros Hs.
    + destruct (Z_le_gt_dec L H) as [Hle | Hgt]; [exact Hle |].
      exfalso. lia.
    + apply Z.min_glb; lia.
  - subst start.
    destruct (H <? L) eqn:E; [apply Z.ltb_lt in E | apply Z.ltb_ge in E];
      Z.to_euclidean_division_equations; lia.
Qed.

Lemma left_start_row_witness :
  let msg := sanitize (lit "hi") in
  let L := lineNum_of msg in
  let win := selectFace true L face0 in
  let H := len win in
  let start := Z.min (H - L) (Z.max 0 ((H - L + 1) / 2)) in
  layout eaw_excerpt true 0 AlignL 80 (lit "hi")
  = Ok (Some {| rows := map (@rev char) win; text := msg;
                msgStart := start |}) /\
  (0 <= start <-> L <= H) /\
  start = (if H <? L then H - L else (H - L + 1) / 2).
Proof.
  apply (left_start_row eaw_excerpt true 0 80 (lit "hi") face0).
  reflexivity.
Defined.

(** ** The narrow-screen exit and the right renderer *)

Lemma forallb_firstn {A} (P : A -> bool) (n : nat) (l : list A) :
  forallb P l = true -> forallb P (firstn n l) = true.
Proof.
  revert l. induction n as [| n IH]; intros [| x l]; simpl; try reflexivity.
  intros H. apply andb_true_iff in H. destruct H as [Hx Hl].
  rewrite Hx. apply IH. exact Hl.
Qed.

Lemma forallb_skipn {A} (P : A -> bool) (n : nat) (l : list A) :
  forallb P l = true -> forallb P (skipn n l) = true.
Proof.
  revert l. induction n as [| n IH]; intros [| x l]; simpl; try tauto.
  intros H. apply andb_true_iff in H. apply IH. tauto.
Qed.

Lemma face_ok_selectFace (showWhole : bool) (L : Z) (face : list str) :
  face_ok face = true -> face_ok (selectFace showWhole L face) = true.
Proof.
  intros Hok. unfold selectFace. destruct showWhole; [exact Hok |].
  destruct (window (len face) L) as [yStart yEnd].
  unfold slice, face_ok. apply forallb_firstn, forallb_skipn. exact Hok.
Qed.

Lemma face_ok_margin (n : Z) (face : list str) :
  face_ok face = true ->
  face_ok (map (fun row => times DOT n ++ row) face) = true.
Proof.
  unfold face_ok. induction face as [| row face IH]; simpl; [reflexivity |].
  intros H. apply andb_true_iff in H. destruct H as [Hrow Hface].
  rewrite forallb_app, Hrow, (IH Hface), !andb_true_r.
  unfold times. induction (Z.to_nat n) as [| k IHk]; simpl; [reflexivity |].
  exact IHk.
Qed.

(** The six faces: 28 rows each, every symbol drawable. *)
Lemma img_faces (imgSeq : Z) (face : list str) :
  index img imgSeq = Ok face -> len face = 28 /\ face_ok face = true.
Proof.
  unfold index. change (len img) with 6.
  destruct (imgSeq <? 0) eqn:Eneg;
    [apply Z.ltb_lt in Eneg | apply Z.ltb_ge in Eneg].
  - destruct (imgSeq + 6 <? 0) eqn:E; [discriminate |].
    apply Z.ltb_ge in E.
    assert (Hk : exists k : nat, (k < 6)%nat /\ Z.to_nat (imgSeq + 6) = k).
    { exists (Z.to_nat (imgSeq + 6)). split; [lia | reflexivity]. }
    destruct Hk as (k & Hk & ->).
    do 6 (destruct k as [| k];
          [intros [= <-]; vm_compute; split; reflexivity |]).
    lia.
  - rewrite (proj2 (Z.ltb_ge imgSeq 0) Eneg).
    destruct (nth_error img (Z.to_nat imgSeq)) as [f |] eqn:En;
      [| discriminate].
    intros [= <-].
    assert (Hlt : (Z.to_nat imgSeq < length img)%nat).
    { apply nth_error_Some. rewrite En. discriminate. }
    change (length img) with 6%nat in Hlt.
    revert En. generalize (Z.to_nat imgSeq) Hlt. intros k Hk.
    do 6 (destruct k as [| k];
          [intros [= <-]; vm_compute; split; reflexivity |]).
    lia.
Qed.

(** Whatever the line count, a 28-row face keeps at least one row. *)
Lemma selectFace_nonempty (showWhole : bool) (L : Z) (face : list str) :
  len face = 28 -> 1 <= len (selectFace showWhole L face).
Proof.
  intros HH. unfold selectFace. destruct showWhole; [lia |].
  rewrite HH. unfold window.
  destruct (L <? 6) eqn:E6.
  - cbn. rewrite len_slice, HH. cbn. lia.
  - apply Z.ltb_ge in E6.
    destruct (L + 2 <? 28) eqn:E28;
      [apply Z.ltb_lt in E28 | apply Z.ltb_ge in E28].
    + rewrite (quot2_div L) by lia. change (Z.quot 28 2) with 14.
      rewrite len_slice, HH.
      assert (Hs : 3 <= 14 - L / 2 + 1 <= 12)
        by (Z.to_euclidean_division_equations; lia).
      rewrite (slice_bound_in 28 (14 - L / 2 + 1)) by lia.
      unfold slice_bound.
      destruct (14 - L / 2 + 1 + L + 1 <? 0) eqn:E;
        [apply Z.ltb_lt in E |]; lia.
    + rewrite len_slice, HH, slice_bound_in, slice_bound_in; lia.
Qed.

Lemma bgColor_ok (color : char) :
  symbol_ok color = true -> (color =? DOT) = false ->
  exists esc, bgColor color = Ok esc.
Proof.
  unfold symbol_ok. intros Hok Hdot. rewrite Hdot in Hok. simpl in Hok.
  change (len palette) with 9 in Hok.
  apply andb_true_iff in Hok. destruct Hok as [Hlo Hhi].
  apply Z.leb_le in Hlo. apply Z.ltb_lt in Hhi.
  replace color with (48 + (color - 48)) by lia.
  apply (small_cases (color - 48) 9); [lia |].
  intros k Hk.
  do 9 (destruct k as [| k]; [vm_compute; eexists; reflexivity |]).
  vm_compute in Hk. lia.
Qed.

Section RightRenderer.
Variable eaw : char -> EAW.

Lemma rightPixels_ok (row : str) :
  forallb symbol_ok row = true ->
  forall msgok msgChars out,
  exists out' msgChars',
    rightPixels eaw row msgok msgChars out = Ok (out ++ out', msgChars').
Proof.
  induction row as [| color row IH]; intros Hok msgok msgChars out.
  - exists [], msgChars. simpl. rewrite app_nil_r. reflexivity.
  - simpl in Hok. apply andb_true_iff in Hok. destruct Hok as [Hc Hrow].
    specialize (IH Hrow).
    assert (Hesc : exists esc,
               (if color =? DOT then Ok reset else bgColor color) = Ok esc).
    { destruct (color =? DOT) eqn:E; [eexists; reflexivity |].
      apply bgColor_ok; assumption. }
    destruct Hesc as (esc & Hesc).
    cbn [rightPixels]. rewrite Hesc. cbn [bind].
    assert (Hgo : forall b m tail, exists out' msgChars',
               rightPixels eaw row b m ((out ++ esc) ++ tail)
               = Ok (out ++ out', msgChars')).
    { intros b m tail. destruct (IH b m ((out ++ esc) ++ tail)) as (o & m' & ->).
      exists (esc ++ tail ++ o), m'. rewrite <- !app_assoc. reflexivity. }
    destruct msgChars as [| outc msgChars1].
    + rewrite orb_true_r. apply Hgo.
    + destruct (negb (if negb (color =? DOT) then false else msgok)
                || (len (outc :: msgChars1) <=? 0)); [apply Hgo |].
      destruct (outc =? LF); [apply Hgo |].
      destruct (negb (in_FWA (eaw outc))); [| apply Hgo].
      destruct msgChars1 as [| next msgChars2]; [apply Hgo |].
      destruct (negb (in_FWA (eaw next))); [| apply Hgo].
      destruct (next =? LF); apply Hgo.
Qed.

Lemma rightRows_ok (msgStart : Z) (rows : list str) :
  face_ok rows = true ->
  forall l msgChars out,
  exists out' msgChars',
    rightRows eaw msgStart rows l msgChars out = Ok (out ++ out', msgChars').
Proof.
  unfold face_ok.
  induction rows as [| row rows IH]; intros Hok l msgChars out.
  - exists [], msgChars. simpl. rewrite app_nil_r. reflexivity.
  - simpl in Hok. apply andb_true_iff in Hok. destruct Hok as [Hrow Hrows].
    cbn [rightRows].
    destruct (rightPixels_ok row Hrow
                (if l <? msgStart then false else true) msgChars out)
      as (o1 & m1 & ->).
    cbn [bind].
    destruct (IH Hrows (l + 1) m1 ((out ++ o1) ++ reset ++ [LF]))
      as (o2 & m2 & ->).
    exists (o1 ++ (reset ++ [LF]) ++ o2), m2.
    rewrite <- !app_assoc. reflexivity.
Qed.

(** On a face of drawable symbols the right renderer raises nothing, and
    its output opens with the style reset. *)
Lemma outRight_ok (face : list str) (width : Z) (msg : str) (msgStart : Z) :
  face_ok face = true ->
  exists out, outRight eaw face width msg msgStart = Ok (reset ++ out).
Proof.
  intros Hok. unfold outRight.
  destruct (rightRows_ok msgStart face Hok 0 msg reset) as (o & m & ->).
  cbn [bind]. destruct (len m >? 0).
  - exists (o ++ m ++ [LF; LF]). rewrite <- app_assoc. reflexivity.
  - exists o. reflexivity.
Qed.

End RightRenderer.

Lemma msgStartR_ok (face : list str) (outN lineNum : Z) :
  exists start, msgStartR face outN lineNum = Ok start.
Proof.
  unfold msgStartR.
  destruct (scan_total face outN (range (len face))) with (N := 0)
    as (r & -> & _).
  - intros s. apply in_range.
  - eexists. reflexivity.
Qed.

(** C5: in right alignment, with [margin] the terminal's columns minus
    twice the length of the first visible face row, the program writes
    the one warning line to the diagnostic stream and nothing to the
    standard output exactly when [margin <= 0]; when the margin is
    positive every face row gets [floor(margin / 2)] background symbols
    in front, and the renderer runs on those rows to its end: nothing
    on the diagnostic stream, the output opening with the style reset. *)
Theorem narrow_screen_exit (eaw : char -> EAW) (showWhole : bool)
    (imgSeq width : Z) (raw : str) (face : list str) :
  index img imgSeq = Ok face ->
  let msg := sanitize raw in
  let win := selectFace showWhole (lineNum_of msg) face in
  exists row0,
    index win 0 = Ok row0 /\
    let margin := width - len row0 * 2 in
    (main eaw showWhole imgSeq AlignR width raw
     = Ok {| stdout := []; stderr := warning |} <-> margin <= 0) /\
    (0 < margin ->
     exists start out,
       layout eaw showWhole imgSeq AlignR width raw
       = Ok (Some {| rows := map (fun row => times DOT (margin / 2) ++ row)
                                 win;
                     text := msg; msgStart := start |}) /\
       main eaw showWhole imgSeq AlignR width raw
       = Ok {| stdout := reset ++ out; stderr := [] |}).
Proof.
  intros Hface msg win.
  destruct (img_faces imgSeq face Hface) as [HH Hok].
  pose proof (selectFace_nonempty showWhole (lineNum_of msg) face HH) as Hne.
  fold win in Hne.
  destruct (index_in_range win 0) as (row0 & Hrow0 & _); [lia |].
  exists row0. split; [exact Hrow0 |].
  intros margin.
  assert (Hlay : layout eaw showWhole imgSeq AlignR width raw
                 = if margin >? 0 then
                     start <- msgStartR
                                (map (fun row =>
                                        times DOT (Z.quot margin 2) ++ row) win)
                                (countChar eaw msg) (lineNum_of msg);;
                     Ok (Some {| rows := map (fun row =>
                                        times DOT (Z.quot margin 2) ++ row) win;
                                 text := msg; msgStart := start |})
                   else Ok None).
  { unfold layout. rewrite Hface. cbn [bind]. fold msg. fold win.
    unfold rightMargin. rewrite Hrow0. cbn [bind].
    unfold mWidth_of. fold margin.
    destruct (margin >? 0); reflexivity. }
  unfold main. rewrite Hlay.
  destruct (margin >? 0) eqn:E.
  - assert (Hpos : 0 < margin) by lia.
    rewrite (quot2_div margin) by lia.
    destruct (msgStartR_ok
                (map (fun row => times DOT (margin / 2) ++ row) win)
                (countChar eaw msg) (lineNum_of msg)) as (start & ->).
    cbn [bind rows text msgStart].
    destruct (outRight_ok eaw
                (map (fun row => times DOT (margin / 2) ++ row) win)
                width msg start) as (out & ->).
    { apply face_ok_margin, face_ok_selectFace, Hok. }
    cbn [bind]. split.
    + split; [discriminate | lia].
    + intros _. exists start, (out ++ reset). split; [reflexivity |].
      rewrite <- app_assoc. reflexivity.
  - cbn [bind]. split.
    + split; [lia | reflexivity].
    + lia.
Qed.

Lemma narrow_screen_exit_witness :
  main eaw_excerpt false 0 AlignR 50 (lit "hello world")
  = Ok {| stdout := []; stderr := warning |} /\
  exists out,
    main eaw_excerpt false 0 AlignR 80 (lit "hello world")
    = Ok {| stdout := reset ++ out; stderr := [] |}.
Proof.
  split.
  - destruct (narrow_screen_exit eaw_excerpt false 0 50 (lit "hello world")
                face0 eq_refl) as (row0 & Hrow0 & Hiff & _).
    apply Hiff. vm_compute in Hrow0. injection Hrow0 as <-.
    vm_compute. discriminate.
  - destruct (narrow_screen_exit eaw_excerpt false 0 80 (lit "hello world")
                face0 eq_refl) as (row0 & Hrow0 & _ & Hrun).
    destruct Hrun as (start & out & _ & Hout).
    + vm_compute in Hrow0. injection Hrow0 as <-. vm_compute. reflexivity.
    + exists out. exact Hout.
Defined.

(** ** The sanitizer *)

Lemma fold_left_append {A} (f : A -> str) (l : list A) (acc : str) :
  fold_left (fun acc x => acc ++ f x) l acc = acc ++ concat (map f l).
Proof.
  revert acc. induction l as [| x l IH]; intros acc; simpl.
  - rewrite app_nil_r. reflexivity.
  - rewrite IH, app_assoc. reflexivity.
Qed.

Lemma sanitize_concat (raw : str) :
  sanitize raw
  = concat (map (fun l => strip_ctrl l ++ [LF])
                (splitlines (rstrip_nl (replace_tab raw)))).
Proof.
  unfold sanitize.
  exact (fold_left_append (fun l => strip_ctrl l ++ [LF]) _ []).
Qed.

(** *** [rstrip] *)

Lemma rstrip_nl_cons (c : char) (t : str) :
  rstrip_nl (c :: t)
  = match rstrip_nl t with
    | [] => if c =? LF then [] else [c]
    | _ :: _ => c :: rstrip_nl t
    end.
Proof. simpl. destruct (rstrip_nl t); reflexivity. Qed.

Lemma rstrip_nl_app_LF (s : str) : rstrip_nl (s ++ [LF]) = rstrip_nl s.
Proof.
  induction s as [| c s IH].
  - reflexivity.
  - rewrite <- app_comm_cons, !rstrip_nl_cons, IH. reflexivity.
Qed.

Lemma rstrip_nl_unterminated (s : str) :
  unterminated s = true -> rstrip_nl s = s.
Proof.
  induction s as [| c s IH]; [discriminate |].
  rewrite rstrip_nl_cons. cbn [unterminated].
  destruct s as [| c' s'].
  - simpl. intros H. apply negb_true_iff in H. rewrite H. reflexivity.
  - intros H. rewrite (IH H). reflexivity.
Qed.

Lemma rstrip_nl_ends (s : str) :
  rstrip_nl s = [] \/ unterminated (rstrip_nl s) = true.
Proof.
  induction s as [| c s IH]; [left; reflexivity |].
  rewrite rstrip_nl_cons.
  destruct (rstrip_nl s) as [| c' s'] eqn:E.
  - destruct (c =? LF) eqn:Ec; [left; reflexivity |].
    right. simpl. rewrite Ec. reflexivity.
  - right. destruct IH as [IH | IH]; [discriminate |]. exact IH.
Qed.

Lemma rstrip_nl_length (s : str) : (length (rstrip_nl s) <= length s)%nat.
Proof.
  induction s as [| c s IH]; [simpl; lia |].
  rewrite rstrip_nl_cons.
  destruct (rstrip_nl s); [destruct (c =? LF) |]; simpl in *; lia.
Qed.

Lemma rstrip_nl_forallb (P : char -> bool) (s : str) :
  forallb P s = true -> forallb P (rstrip_nl s) = true.
Proof.
  induction s as [| c s IH]; [reflexivity |].
  rewrite rstrip_nl_cons. simpl. intros H.
  apply andb_true_iff in H. destruct H as [Hc Hs]. specialize (IH Hs).
  destruct (rstrip_nl s).
  - destruct (c =? LF); simpl; [reflexivity | rewrite Hc; reflexivity].
  - cbn [forallb] in *. rewrite Hc. exact IH.
Qed.

Lemma unterminated_snoc (s : str) (c : char) :
  unterminated (s ++ [c]) = negb (c =? LF).
Proof.
  induction s as [| a s IH]; [reflexivity |].
  rewrite <- app_comm_cons. cbn [unterminated].
  destruct (s ++ [c]) eqn:E; [destruct s; discriminate |]. exact IH.
Qed.

(** *** [splitlines] *)

Lemma splitlines_nonempty (c : char) (t : str) :
  splitlines_from false (c :: t) <> [].
Proof.
  simpl. destruct (is_linebreak c); [discriminate |].
  destruct (splitlines_from false t); discriminate.
Qed.

(** No line holds a line boundary. *)
Lemma splitlines_no_break (s : str) :
  forall b, forallb (forallb (fun c => negb (is_linebreak c)))
                    (splitlines_from b s) = true.
Proof.
  induction s as [| c s IH]; intros b; [reflexivity |].
  cbn [splitlines_from].
  destruct (b && (c =? LF)); [apply IH |].
  destruct (is_linebreak c) eqn:Ec.
  - cbn [forallb]. apply IH.
  - specialize (IH false).
    destruct (splitlines_from false s) as [| l ls].
    + simpl. rewrite Ec. reflexivity.
    + cbn [forallb] in *. rewrite Ec. exact IH.
Qed.

Lemma keeps_not_LF (c : char) : (c =? LF) = false -> keeps c = negb (is_ctrl c).
Proof. intros H. unfold keeps. rewrite H. reflexivity. Qed.

(** When the newline is the only boundary, splitting, stripping each line
    and closing it with a newline keeps the newlines where they were and
    closes an unterminated last line. *)
Lemma lines_only_lf (s : str) :
  only_lf s = true ->
  concat (map (fun l => strip_ctrl l ++ [LF]) (splitlines_from false s))
  = filter keeps s ++ (if unterminated s then [LF] else []).
Proof.
  unfold only_lf.
  induction s as [| c s IH]; [reflexivity |].
  cbn [forallb]. intros H. apply andb_true_iff in H. destruct H as [Hc Hs].
  specialize (IH Hs). cbn [splitlines_from andb filter unterminated].
  destruct (c =? LF) eqn:Ec.
  - apply Z.eqb_eq in Ec. subst c.
    change (is_linebreak LF) with true. change (keeps LF) with true.
    change (LF =? CR) with false. cbn [map concat strip_ctrl filter app].
    rewrite IH. destruct s; reflexivity.
  - simpl in Hc. apply negb_true_iff in Hc. rewrite Hc.
    rewrite (keeps_not_LF c Ec).
    destruct s as [| c' s'].
    + simpl. destruct (is_ctrl c); reflexivity.
    + pose proof (splitlines_nonempty c' s') as Hne.
      destruct (splitlines_from false (c' :: s')) as [| l ls];
        [congruence |].
      cbn [map concat] in *. cbn iota.
      change (strip_ctrl (c :: l)) with
        (if negb (is_ctrl c) then c :: strip_ctrl l else strip_ctrl l).
      destruct (negb (is_ctrl c)); cbn [app]; rewrite IH; reflexivity.
Qed.

Lemma strip_ctrl_clean (l : str) :
  forallb (fun c => negb (is_linebreak c)) l = true ->
  forallb clean (strip_ctrl l) = true.
Proof.
  induction l as [| c l IH]; [reflexivity |].
  cbn [forallb strip_ctrl filter]. intros H.
  apply andb_true_iff in H. destruct H as [Hc Hl].
  destruct (negb (is_ctrl c)) eqn:E; [| apply IH, Hl].
  cbn [forallb]. fold (strip_ctrl l). rewrite (IH Hl), andb_true_r.
  unfold clean. apply negb_true_iff in E, Hc. rewrite E, Hc.
  apply orb_true_r.
Qed.

Lemma closed_lines_clean (lines : list str) :
  forallb (forallb (fun c => negb (is_linebreak c))) lines = true ->
  forallb clean (concat (map (fun l => strip_ctrl l ++ [LF]) lines)) = true.
Proof.
  induction lines as [| l lines IH]; [reflexivity |].
  cbn [forallb map concat]. intros H.
  apply andb_true_iff in H. destruct H as [Hl Hlines].
  rewrite !forallb_app, (strip_ctrl_clean l Hl), (IH Hlines). reflexivity.
Qed.

Lemma closed_lines_end (lines : list str) :
  lines <> [] ->
  exists body,
    concat (map (fun l => strip_ctrl l ++ [LF]) lines) = body ++ [LF].
Proof.
  induction lines as [| l lines IH]; [congruence |]. intros _.
  destruct lines as [| l' lines'].
  - exists (strip_ctrl l). simpl. rewrite app_nil_r. reflexivity.
  - destruct IH as (body & Hbody); [discriminate |].
    exists ((strip_ctrl l ++ [LF]) ++ body).
    cbn [map concat] in *. rewrite Hbody, <- !app_assoc. reflexivity.
Qed.

Lemma sanitize_clean (raw : str) : forallb clean (sanitize raw) = true.
Proof.
  rewrite sanitize_concat. apply closed_lines_clean, splitlines_no_break.
Qed.

Lemma sanitize_end (raw : str) :
  sanitize raw = [] \/ exists body, sanitize raw = body ++ [LF].
Proof.
  rewrite sanitize_concat.
  destruct (splitlines (rstrip_nl (replace_tab raw))) as [| l ls] eqn:E.
  - left. reflexivity.
  - right. apply closed_lines_end. discriminate.
Qed.

Lemma only_lf_replace_tab (s : str) :
  only_lf s = true -> only_lf (replace_tab s) = true.
Proof.
  unfold only_lf, replace_tab. induction s as [| c s IH]; [reflexivity |].
  cbn [forallb map]. intros H.
  apply andb_true_iff in H. destruct H as [Hc Hs].
  rewrite (IH Hs), andb_true_r.
  destruct (c =? TAB); [reflexivity | exact Hc].
Qed.

(** With the newline as only boundary: trailing newlines stripped, tabs
    replaced, control characters other than the newline removed, and one
    closing newline unless nothing is left. *)
Lemma sanitize_only_lf (raw : str) :
  only_lf raw = true ->
  sanitize raw
  = match rstrip_nl (replace_tab raw) with
    | [] => []
    | _ :: _ => filter keeps (rstrip_nl (replace_tab raw)) ++ [LF]
    end.
Proof.
  intros Hlf. rewrite sanitize_concat. unfold splitlines.
  rewrite lines_only_lf
    by (apply rstrip_nl_forallb, only_lf_replace_tab, Hlf).
  destruct (rstrip_nl_ends (replace_tab raw)) as [E | E].
  - rewrite E. reflexivity.
  - rewrite E.
    destruct (rstrip_nl (replace_tab raw)); [discriminate | reflexivity].
Qed.

(** C7 as stated fails on any non-empty text: the rebuilt message ends
    in a newline ("hello" becomes "hello\n"), and a carriage return is
    not removed but read as a line boundary and written back as a
    newline. *)
Lemma sanitize_closes_last_line :
  sanitize (lit "hello") = lit "hello" ++ [LF] /\
  sanitize_as_specified (lit "hello") = lit "hello" /\
  sanitize (lit "hello") <> sanitize_as_specified (lit "hello") /\
  sanitize [97; CR; 98] = [97; LF; 98; LF] /\
  sanitize_as_specified [97; CR; 98] = [97; 98].
Proof. vm_compute. repeat split; (reflexivity || discriminate). Qed.

(** C7, as the code has it: the sanitizer is total; it replaces tabs,
    strips every trailing newline, splits at the line boundaries of
    [splitlines], removes the control characters of each line and closes
    every line, the last one too, with a newline.  So the output holds no
    tab, no DEL and no C0 character but the newline, and is empty (as for
    the empty input) or ends in a newline; and where the newline is the
    input's only line boundary, the output is the text the specification
    describes followed by one newline, or empty when nothing is left. *)
Theorem sanitize_lines (raw : str) :
  sanitize raw
  = concat (map (fun l => strip_ctrl l ++ [LF])
                (splitlines (rstrip_nl (replace_tab raw)))) /\
  forallb (fun c => (c =? LF) || negb (is_ctrl c)) (sanitize raw) = true /\
  (sanitize raw = [] \/ exists body, sanitize raw = body ++ [LF]) /\
  sanitize [] = [] /\
  (only_lf raw = true ->
   sanitize raw
   = match rstrip_nl (replace_tab raw) with
     | [] => []
     | _ :: _ => sanitize_as_specified raw ++ [LF]
     end).
Proof.
  split; [apply sanitize_concat |].
  split; [| split; [apply sanitize_end | split; [reflexivity |]]].
  - pose proof (sanitize_clean raw) as H.
    rewrite forallb_forall in *. intros c Hc. specialize (H c Hc).
    unfold clean in H. apply orb_true_iff in H. apply orb_true_iff.
    destruct H as [H | H]; [left; exact H | right].
    rewrite negb_orb in H. apply andb_true_iff in H. tauto.
  - exact (sanitize_only_lf raw).
Qed.

Lemma sanitize_lines_witness :
  sanitize [97; TAB; 98; 1; LF; 99; LF; LF]
  = sanitize_as_specified [97; TAB; 98; 1; LF; 99; LF; LF] ++ [LF].
Proof.
  apply (proj2 (proj2 (proj2 (proj2
           (sanitize_lines [97; TAB; 98; 1; LF; 99; LF; LF]))))).
  reflexivity.
Defined.

(** *** Sanitizing twice *)

Lemma clean_replace_tab (s : str) :
  forallb clean s = true -> replace_tab s = s.
Proof.
  unfold replace_tab. induction s as [| c s IH]; [reflexivity |].
  cbn [forallb map]. intros H.
  apply andb_true_iff in H. destruct H as [Hc Hs]. rewrite (IH Hs).
  destruct (c =? TAB) eqn:E; [| reflexivity].
  apply Z.eqb_eq in E. subst c. discriminate.
Qed.

Lemma clean_keeps (s : str) : forallb clean s = true -> filter keeps s = s.
Proof.
  induction s as [| c s IH]; [reflexivity |].
  cbn [forallb filter]. intros H.
  apply andb_true_iff in H. destruct H as [Hc Hs]. rewrite (IH Hs).
  assert (Hk : keeps c = true).
  { unfold clean, keeps in *. apply orb_true_iff in Hc. apply orb_true_iff.
    destruct Hc as [Hc | Hc]; [left; exact Hc | right].
    rewrite negb_orb in Hc. apply andb_true_iff in Hc. tauto. }
  rewrite Hk. reflexivity.
Qed.

Lemma clean_only_lf (s : str) : forallb clean s = true -> only_lf s = true.
Proof.
  unfold only_lf. rewrite !forallb_forall. intros H c Hc.
  specialize (H c Hc). unfold clean in H.
  apply orb_true_iff in H. apply orb_true_iff.
  destruct H as [H | H]; [left; exact H | right].
  rewrite negb_orb in H. apply andb_true_iff in H. tauto.
Qed.

Lemma sanitize_of_clean (s : str) :
  forallb clean s = true ->
  sanitize s = match rstrip_nl s with [] => [] | _ :: _ => rstrip_nl s ++ [LF] end.
Proof.
  intros Hs. rewrite (sanitize_only_lf s (clean_only_lf s Hs)).
  rewrite (clean_replace_tab s Hs).
  rewrite (clean_keeps (rstrip_nl s)) by (apply rstrip_nl_forallb, Hs).
  reflexivity.
Qed.

Lemma blank_tail_snoc (body : str) :
  blank_tail (body ++ [LF]) = negb (unterminated body).
Proof.
  unfold blank_tail. rewrite rev_app_distr. cbn [rev app].
  destruct body as [| c body] using rev_ind; [reflexivity |].
  rewrite rev_app_distr, unterminated_snoc, negb_involutive. reflexivity.
Qed.

Lemma sanitize_closed_fixed (body : str) :
  forallb clean (body ++ [LF]) = true ->
  (sanitize (body ++ [LF]) = body ++ [LF] <-> unterminated body = true).
Proof.
  intros Hclean. rewrite (sanitize_of_clean _ Hclean), rstrip_nl_app_LF.
  split.
  - intros H. destruct (unterminated body) eqn:E; [reflexivity | exfalso].
    destruct body as [| c body] using rev_ind.
    + simpl in H. discriminate.
    + rewrite unterminated_snoc in E. apply negb_false_iff in E.
      apply Z.eqb_eq in E. subst c. rewrite rstrip_nl_app_LF in H.
      pose proof (rstrip_nl_length body) as Hlen.
      apply (f_equal (@length char)) in H.
      destruct (rstrip_nl body); rewrite ?length_app in H; simpl in H;
        rewrite ?length_app in H; simpl in *; lia.
  - intros H. rewrite (rstrip_nl_unterminated body H).
    destruct body; [discriminate | reflexivity].
Qed.

Lemma strip_lines_of_closed (s : str) :
  forallb clean s = true ->
  (s = [] \/ exists body, s = body ++ [LF]) ->
  strip_lines s = s.
Proof.
  intros Hclean Hend. unfold strip_lines, splitlines.
  rewrite (clean_replace_tab s Hclean).
  rewrite (lines_only_lf s (clean_only_lf s Hclean)).
  rewrite (clean_keeps s Hclean).
  destruct Hend as [-> | (body & ->)]; [reflexivity |].
  rewrite unterminated_snoc. simpl. apply app_nil_r.
Qed.

(** C9 as stated fails when the sanitized text ends in an empty line:
    the lines "a" and "\x01" give "a\n\n", and sanitizing that gives
    "a\n"; a lone carriage return gives "\n", and that gives the empty
    text. *)
Lemma sanitize_not_idempotent :
  sanitize [97; LF; 1] = [97; LF; LF] /\
  sanitize (sanitize [97; LF; 1]) = [97; LF] /\
  sanitize (sanitize [97; LF; 1]) <> sanitize [97; LF; 1] /\
  sanitize [CR] = [LF] /\
  sanitize (sanitize [CR]) = [].
Proof. vm_compute. repeat split; (reflexivity || discriminate). Qed.

(** C9, as the code has it: on the sanitizer's output the tab
    replacement and the control-character filter change nothing, also
    when applied line by line as the sanitizer does; the whole sanitizer,
    which strips the trailing newlines before it closes the lines again,
    returns that output unchanged exactly when the output does not end in
    an empty line, and drops the empty lines at its end otherwise. *)
Theorem sanitize_again (raw : str) :
  let out := sanitize raw in
  replace_tab out = out /\
  filter keeps out = out /\
  strip_lines out = out /\
  sanitize out
  = match rstrip_nl out with [] => [] | _ :: _ => rstrip_nl out ++ [LF] end /\
  (sanitize out = out <-> blank_tail out = false).
Proof.
  intros out. pose proof (sanitize_clean raw) as Hclean. fold out in Hclean.
  split; [apply clean_replace_tab, Hclean |].
  split; [apply clean_keeps, Hclean |].
  split; [apply strip_lines_of_closed; [exact Hclean | apply sanitize_end] |].
  split; [apply sanitize_of_clean, Hclean |].
  destruct (sanitize_end raw) as [E | (body & E)]; fold out in E.
  - rewrite E. split; reflexivity.
  - rewrite E in *. rewrite blank_tail_snoc, negb_false_iff.
    apply sanitize_closed_fixed, Hclean.
Qed.

Lemma sanitize_again_witness :
  sanitize (sanitize (lit "hello")) = sanitize (lit "hello").
Proof.
  apply (proj2 (proj2 (proj2 (proj2 (sanitize_again (lit "hello")))))).
  reflexivity.
Defined.

(** ** The command line *)

Lemma str_eqb_eq (a b : str) : Cli.str_eqb a b = true <-> a = b.
Proof.
  revert b. induction a as [| x a IH]; intros [| y b]; simpl;
    try (split; [discriminate | congruence]); [tauto |].
  rewrite andb_true_iff, Z.eqb_eq, IH. split.
  - intros [-> ->]. reflexivity.
  - intros [= -> ->]. split; reflexivity.
Qed.

Lemma face_option_range (arg : str) (n : Z) :
  Cli.face_option arg = Some n -> 0 <= n <= 5.
Proof.
  unfold Cli.face_option. destruct arg as [| dash [| d tail]]; try discriminate.
  change (len img) with 6.
  destruct ((dash =? 45) && (48 <=? d) && (d <=? 48 + (6 - 1))
            && (Cli.str_eqb tail [] || Cli.str_eqb tail [LF])) eqn:E;
    [| discriminate].
  intros [= <-]. rewrite !andb_true_iff in E.
  destruct E as [[[_ Hlo] Hhi] _]. lia.
Qed.

(** What the option loop keeps, whatever the arguments: the face number
    stays a valid index, and the arguments left are the end of the
    argument list. *)
Lemma parse_inv (n : nat) :
  forall argv o o' rest,
    (length argv <= n)%nat ->
    Cli.parse o argv = Cli.Go o' rest ->
    (0 <= Cli.imgSeq o <= 5 -> 0 <= Cli.imgSeq o' <= 5) /\
    exists used,
      argv = used ++ rest /\
      (rest = [] \/ Cli.starts_dash (hd [] rest) = false \/
       exists u, used = u ++ [lit "--"]).
Proof.
  induction n as [| n IH]; intros [| arg rest0] o o' rest Hn Hp;
    try (simpl in Hn; lia);
    try (injection Hp as <- <-; split; [tauto |]; exists []; split;
         [reflexivity | left; reflexivity]).
  assert (IHrest : forall o1,
             Cli.parse o1 rest0 = Cli.Go o' rest ->
             (0 <= Cli.imgSeq o1 <= 5 -> 0 <= Cli.imgSeq o' <= 5) /\
             exists used,
               arg :: rest0 = used ++ rest /\
               (rest = [] \/ Cli.starts_dash (hd [] rest) = false \/
                exists u, used = u ++ [lit "--"])).
  { intros o1 Hp1. destruct (IH rest0 o1 o' rest) as (Himg & used & -> & Hstop);
      [simpl in Hn; lia | exact Hp1 |].
    split; [exact Himg |]. exists (arg :: used). split; [reflexivity |].
    destruct Hstop as [H | [H | (u & ->)]]; [tauto | tauto |].
    right. right. exists (arg :: u). reflexivity. }
  cbn [Cli.parse] in Hp.
  destruct (Cli.starts_dash arg) eqn:Edash; cbn [negb] in Hp.
  2:{ injection Hp as <- <-. split; [tauto |]. exists []. split;
        [reflexivity | right; left; exact Edash]. }
  destruct (Cli.str_eqb arg (lit "--")) eqn:E0.
  { apply str_eqb_eq in E0. injection Hp as <- <-. split; [tauto |].
    exists [arg]. split; [reflexivity |]. right. right. exists [].
    rewrite E0. reflexivity. }
  destruct (Cli.str_eqb arg (lit "-l")); [exact (IHrest _ Hp) |].
  destruct (Cli.str_eqb arg (lit "-r")); [exact (IHrest _ Hp) |].
  destruct (Cli.str_eqb arg (lit "-q")); [exact (IHrest _ Hp) |].
  destruct (Cli.str_eqb arg (lit "-d")); [exact (IHrest _ Hp) |].
  assert (Hdigit :
            match Cli.face_option arg with
            | Some n0 =>
                Cli.parse
                  {| Cli.inFile := Cli.inFile o; Cli.quiet := Cli.quiet o;
                     Cli.showWhole := Cli.showWhole o; Cli.imgSeq := n0;
                     Cli.align := Cli.align o |} rest0
            | None => Cli.Usage
            end = Cli.Go o' rest ->
            (0 <= Cli.imgSeq o <= 5 -> 0 <= Cli.imgSeq o' <= 5) /\
            exists used,
              arg :: rest0 = used ++ rest /\
              (rest = [] \/ Cli.starts_dash (hd [] rest) = false \/
               exists u, used = u ++ [lit "--"])).
  { destruct (Cli.face_option arg) as [n0 |] eqn:Eface; [| discriminate].
    intros Hp'. destruct (IHrest _ Hp') as (Himg & Hused).
    split; [| exact Hused]. intros _. apply Himg. cbn [Cli.imgSeq].
    exact (face_option_range arg n0 Eface). }
  destruct (Cli.str_eqb arg (lit "-f")) eqn:Ef; [| exact (Hdigit Hp)].
  destruct rest0 as [| file rest2]; [exact (Hdigit Hp) |].
  pose proof (fun Hlen => IH rest2 _ o' rest Hlen Hp) as IH2.
  destruct IH2 as (Himg & used & -> & Hstop); [simpl in Hn; lia |].
  split; [exact Himg |]. exists (arg :: file :: used). split; [reflexivity |].
  destruct Hstop as [H | [H | (u & ->)]]; [tauto | tauto |].
  right. right. exists (arg :: file :: u). reflexivity.
Qed.

(** X1: whatever the arguments, when the option loop ends without the
    usage text the face number it leaves is one of 0..5, so the lookup
    [img[imgSeq]] finds a face. *)
Theorem parse_face_index (argv : list str) (o : Cli.Options) (rest : list str) :
  Cli.parse Cli.defaults argv = Cli.Go o rest ->
  0 <= Cli.imgSeq o <= 5 /\ exists face, index img (Cli.imgSeq o) = Ok face.
Proof.
  intros Hp.
  destruct (parse_inv (length argv) argv Cli.defaults o rest (le_n _) Hp)
    as (Himg & _).
  assert (Hr : 0 <= Cli.imgSeq o <= 5) by (apply Himg; simpl; lia).
  split; [exact Hr |].
  destruct (index_in_range img (Cli.imgSeq o)) as (face & Hface & _).
  - change (len img) with 6. lia.
  - exists face. exact Hface.
Qed.

Lemma parse_face_index_witness :
  0 <= 4 <= 5 /\ exists face, index img 4 = Ok face.
Proof.
  apply (parse_face_index [lit "-l"; lit "-4"; lit "-d"; lit "hello"]
           {| Cli.inFile := []; Cli.quiet := false; Cli.showWhole := false;
              Cli.imgSeq := 4; Cli.align := AlignL |} [lit "hello"]).
  reflexivity.
Defined.

(** X2: the arguments the option loop leaves for the message are the end
    of the argument list, and the loop stops only at the end of the list,
    at the first argument that does not start with a dash, or right
    after [--]. *)
Theorem parse_leaves_message (argv : list str) (o o' : Cli.Options)
    (rest : list str) :
  Cli.parse o argv = Cli.Go o' rest ->
  exists used,
    argv = used ++ rest /\
    (rest = [] \/ Cli.starts_dash (hd [] rest) = false \/
     exists u, used = u ++ [lit "--"]).
Proof.
  intros Hp.
  exact (proj2 (parse_inv (length argv) argv o o' rest (le_n _) Hp)).
Qed.

Lemma parse_leaves_message_witness :
  exists used,
    [lit "-q"; lit "--"; lit "-x"; lit "y"] = used ++ [lit "-x"; lit "y"] /\
    ([lit "-x"; lit "y"] = [] \/
     Cli.starts_dash (hd [] [lit "-x"; lit "y"]) = false \/
     exists u, used = u ++ [lit "--"]).
Proof.
  apply (parse_leaves_message [lit "-q"; lit "--"; lit "-x"; lit "y"]
           Cli.defaults
           {| Cli.inFile := []; Cli.quiet := true; Cli.showWhole := true;
              Cli.imgSeq := 0; Cli.align := AlignR |}).
  reflexivity.
Defined.

(** ** The message source *)

Lemma replace_tab_app (a b : str) :
  replace_tab (a ++ b) = replace_tab a ++ replace_tab b.
Proof. unfold replace_tab. apply map_app. Qed.

Lemma sanitize_app_LF (s : str) : sanitize (s ++ [LF]) = sanitize s.
Proof.
  unfold sanitize. rewrite replace_tab_app.
  change (replace_tab [LF]) with [LF]. rewrite rstrip_nl_app_LF. reflexivity.
Qed.

(** The program reads its message through the sanitizer only. *)
Lemma main_sanitized (eaw : char -> EAW) (showWhole : bool) (imgSeq : Z)
    (align : Align) (width : Z) (m1 m2 : str) :
  sanitize m1 = sanitize m2 ->
  main eaw showWhole imgSeq align width m1
  = main eaw showWhole imgSeq align width m2.
Proof. intros H. unfold main, layout. rewrite H. reflexivity. Qed.

(** X3: the three message sources agree.  Words given as arguments (the
    first one not starting with a dash), the same words joined by single
    spaces typed as one line on the standard input, and a file holding
    that line with its final newline, all give the same run. *)
Theorem same_run_from_any_source (eaw : char -> EAW) (argv0 : str)
    (words : list str) (path : str)
    (file file' : str -> option str) (stdin stdin' : list str) (width : Z) :
  words <> [] -> Cli.starts_dash (hd [] words) = false ->
  path <> [] -> file path = Some (Cli.join_sp words ++ [LF]) ->
  Cli.techo eaw argv0 words file' stdin' width
  = Cli.techo eaw argv0 [] file' [Cli.join_sp words] width /\
  Cli.techo eaw argv0 words file' stdin' width
  = Cli.techo eaw argv0 [lit "-f"; path] file stdin width.
Proof.
  intros Hne Hdash Hpath Hfile.
  destruct words as [| w ws]; [congruence |]. simpl in Hdash.
  assert (Hargs : Cli.techo eaw argv0 (w :: ws) file' stdin' width
                  = match main eaw true 0 AlignR width (Cli.join_sp (w :: ws)) with
                    | Ok out => Cli.Exited out
                    | Raise e => Cli.Uncaught e
                    end).
  { unfold Cli.techo. cbn [Cli.parse]. rewrite Hdash. reflexivity. }
  rewrite Hargs. split.
  - unfold Cli.techo. cbn [Cli.parse]. unfold Cli.resolve.
    change (len (@nil str) >? 0) with false.
    change (Cli.quiet Cli.defaults) with false.
    change (negb (Cli.str_eqb (Cli.inFile Cli.defaults) [])) with false.
    change (Cli.showWhole Cli.defaults) with true.
    change (Cli.imgSeq Cli.defaults) with 0.
    change (Cli.align Cli.defaults) with AlignR.
    unfold Cli.read_stdin. cbn [fold_left app].
    rewrite (main_sanitized eaw true 0 AlignR width
               (Cli.join_sp (w :: ws) ++ [LF]) (Cli.join_sp (w :: ws)))
      by apply sanitize_app_LF.
    reflexivity.
  - unfold Cli.techo.
    change (Cli.parse Cli.defaults [lit "-f"; path])
      with (Cli.Go {| Cli.inFile := path; Cli.quiet := false;
                      Cli.showWhole := true; Cli.imgSeq := 0;
                      Cli.align := AlignR |} []).
    unfold Cli.resolve. cbn [Cli.quiet Cli.inFile Cli.showWhole Cli.imgSeq
                               Cli.align].
    assert (Hp : Cli.str_eqb path [] = false).
    { destruct path; [congruence | reflexivity]. }
    rewrite Hp, Hfile. cbn [negb].
    rewrite (main_sanitized eaw true 0 AlignR width
               (Cli.join_sp (w :: ws) ++ [LF]) (Cli.join_sp (w :: ws)))
      by apply sanitize_app_LF.
    reflexivity.
Qed.

Lemma same_run_from_any_source_witness :
  Cli.techo eaw_excerpt (lit "techo") [lit "hello"; lit "world"]
            (fun _ => None) [] 80
  = Cli.techo eaw_excerpt (lit "techo") [] (fun _ => None)
              [lit "hello world"] 80 /\
  Cli.techo eaw_excerpt (lit "techo") [lit "hello"; lit "world"]
            (fun _ => None) [] 80
  = Cli.techo eaw_excerpt (lit "techo") [lit "-f"; lit "msg.txt"]
              (fun _ => Some (lit "hello world" ++ [LF])) [] 80.
Proof.
  apply (same_run_from_any_source eaw_excerpt (lit "techo")
           [lit "hello"; lit "world"] (lit "msg.txt")
           (fun _ => Some (lit "hello world" ++ [LF])) (fun _ => None)
           [] [] 80).
  - discriminate.
  - reflexivity.
  - discriminate.
  - reflexivity.
Defined.

(** ** Line count and display width *)

Lemma strip_ctrl_no_LF (l : str) :
  filter (fun c => c =? LF) (strip_ctrl l) = [].
Proof.
  unfold strip_ctrl. induction l as [| c l IH]; [reflexivity |].
  cbn [filter]. destruct (is_ctrl c) eqn:Ec; cbn [negb]; [exact IH |].
  cbn [filter]. destruct (c =? LF) eqn:E; [| exact IH].
  apply Z.eqb_eq in E. subst c. discriminate.
Qed.

Lemma count_nl_closed_lines (lines : list str) :
  count_nl (concat (map (fun l => strip_ctrl l ++ [LF]) lines)) = len lines.
Proof.
  unfold count_nl, len. f_equal.
  induction lines as [| l lines IH]; [reflexivity |].
  cbn [map concat]. rewrite !filter_app, strip_ctrl_no_LF, !length_app.
  apply (f_equal S) in IH. exact IH.
Qed.

(** X4: the line count the layout uses is the number of lines of the
    message (split at the boundaries of [splitlines], after the tabs are
    replaced and the trailing newlines stripped), and 1 for a message
    without any line. *)
Theorem line_count (raw : str) :
  lineNum_of (sanitize raw)
  = Z.max 1 (len (splitlines (rstrip_nl (replace_tab raw)))) /\
  1 <= lineNum_of (sanitize raw).
Proof.
  assert (H : lineNum_of (sanitize raw)
              = Z.max 1 (len (splitlines (rstrip_nl (replace_tab raw))))).
  { unfold lineNum_of. rewrite sanitize_concat, count_nl_closed_lines.
    destruct (len (splitlines (rstrip_nl (replace_tab raw))) <=? 0) eqn:E;
      [apply Z.leb_le in E | apply Z.leb_gt in E]; unfold len in *; lia. }
  split; [exact H | rewrite H; lia].
Qed.

Lemma charWidth_range (eaw : char -> EAW) (c : char) :
  1 <= charWidth eaw c <= 2.
Proof. unfold charWidth. destruct (eaw c); lia. Qed.

(** X5: the display width adds up over concatenation and lies between
    the number of characters and twice that number. *)
Theorem countChar_app_bounds (eaw : char -> EAW) (a b : str) :
  countChar eaw (a ++ b) = countChar eaw a + countChar eaw b /\
  len a <= countChar eaw a <= 2 * len a.
Proof.
  split.
  - unfold countChar. rewrite fold_left_app, !countChar_from. lia.
  - unfold countChar. rewrite countChar_from. unfold len.
    induction a as [| c a IH]; [simpl; lia |].
    cbn [map fold_right length]. rewrite Nat2Z.inj_succ.
    pose proof (charWidth_range eaw c). lia.
Qed.

(** ** The visible face *)

Lemma index_In {A} (l : list A) (i : Z) (x : A) : index l i = Ok x -> In x l.
Proof.
  unfold index.
  destruct ((if i <? 0 then i + len l else i) <? 0); [discriminate |].
  destruct (nth_error l (Z.to_nat (if i <? 0 then i + len l else i)))
    as [y |] eqn:E; [| discriminate].
  intros [= <-]. exact (nth_error_In _ _ E).
Qed.

Lemma img_rows_25 (imgSeq : Z) (face : list str) :
  index img imgSeq = Ok face ->
  forallb (fun row => len row =? 25) face = true.
Proof.
  intros Hface. apply index_In in Hface.
  assert (Hall : forallb (fun f => forallb (fun row => len row =? 25) f) img
                 = true) by (vm_compute; reflexivity).
  rewrite forallb_forall in Hall. exact (Hall face Hface).
Qed.

Lemma selectFace_forallb (P : str -> bool) (showWhole : bool) (L : Z)
    (face : list str) :
  forallb P face = true -> forallb P (selectFace showWhole L face) = true.
Proof.
  intros Hok. unfold selectFace. destruct showWhole; [exact Hok |].
  destruct (window (len face) L) as [yStart yEnd].
  unfold slice. apply forallb_firstn, forallb_skipn. exact Hok.
Qed.

(** X6: in reduced mode (-d) the face keeps at least 6 and at most all of
    its 28 rows, and never fewer rows than the message has lines unless
    the message has more than 28; every row kept is 25 symbols wide. *)
Theorem reduced_face_rows (imgSeq L : Z) (face : list str) :
  index img imgSeq = Ok face -> 1 <= L ->
  6 <= len (selectFace false L face) <= 28 /\
  Z.min L 28 <= len (selectFace false L face) /\
  forallb (fun row => len row =? 25) (selectFace false L face) = true.
Proof.
  intros Hface HL.
  destruct (img_faces imgSeq face Hface) as [HH _].
  split; [| split];
    [| | apply selectFace_forallb, (img_rows_25 imgSeq face Hface)].
  - unfold selectFace. rewrite HH. unfold window.
    destruct (L <? 6) eqn:E6.
    + cbn. rewrite len_slice, HH. cbn. lia.
    + apply Z.ltb_ge in E6.
      destruct (L + 2 <? 28) eqn:E28;
        [apply Z.ltb_lt in E28 | apply Z.ltb_ge in E28].
      * rewrite (quot2_div L) by lia. change (Z.quot 28 2) with 14.
        rewrite len_slice, HH.
        assert (Hs : 3 <= 14 - L / 2 + 1 <= 12)
          by (Z.to_euclidean_division_equations; lia).
        rewrite (slice_bound_in 28 (14 - L / 2 + 1)) by lia.
        unfold slice_bound.
        destruct (14 - L / 2 + 1 + L + 1 <? 0) eqn:E;
          [apply Z.ltb_lt in E |]; lia.
      * rewrite len_slice, HH, slice_bound_in, slice_bound_in; lia.
  - unfold selectFace. rewrite HH. unfold window.
    destruct (L <? 6) eqn:E6.
    + apply Z.ltb_lt in E6. cbn. rewrite len_slice, HH. cbn. lia.
    + apply Z.ltb_ge in E6.
      destruct (L + 2 <? 28) eqn:E28;
        [apply Z.ltb_lt in E28 | apply Z.ltb_ge in E28].
      * rewrite (quot2_div L) by lia. change (Z.quot 28 2) with 14.
        rewrite len_slice, HH.
        assert (Hs : 3 <= 14 - L / 2 + 1 <= 12)
          by (Z.to_euclidean_division_equations; lia).
        rewrite (slice_bound_in 28 (14 - L / 2 + 1)) by lia.
        unfold slice_bound.
        destruct (14 - L / 2 + 1 + L + 1 <? 0) eqn:E;
          [apply Z.ltb_lt in E |];
          Z.to_euclidean_division_equations; lia.
      * rewrite len_slice, HH, slice_bound_in, slice_bound_in; lia.
Qed.

Lemma reduced_face_rows_witness :
  6 <= len (selectFace false 25 face3) <= 28 /\
  Z.min 25 28 <= len (selectFace false 25 face3) /\
  forallb (fun row => len row =? 25) (selectFace false 25 face3) = true.
Proof.
  apply (reduced_face_rows 3 25 face3); [reflexivity | lia].
Defined.

(** X7: in right alignment on a terminal wide enough, the rows with
    their margin all have the same length, and the picture (two cells a
    symbol) ends in the last column of the terminal or the one before
    it. *)
Theorem margin_fills_terminal (showWhole : bool) (imgSeq L width : Z)
    (face rows' : list str) :
  index img imgSeq = Ok face ->
  rightMargin width (selectFace showWhole L face) = Ok (Some rows') ->
  len rows' = len (selectFace showWhole L face) /\
  forall row, In row rows' ->
    len row = 25 + (width - 50) / 2 /\
    width - 1 <= 2 * len row <= width.
Proof.
  intros Hface Hm.
  pose proof (selectFace_forallb (fun row => len row =? 25) showWhole L face
                (img_rows_25 imgSeq face Hface)) as Hw.
  rewrite forallb_forall in Hw.
  unfold rightMargin in Hm.
  destruct (index (selectFace showWhole L face) 0) as [row0 | e] eqn:E0;
    [| discriminate].
  cbn [bind] in Hm.
  assert (H0 : len row0 = 25).
  { apply Z.eqb_eq, Hw, (index_In _ _ _ E0). }
  unfold mWidth_of in Hm. rewrite H0 in Hm.
  destruct (width - 25 * 2 >? 0) eqn:Epos; [| discriminate].
  injection Hm as <-. split.
  - unfold len. rewrite length_map. reflexivity.
  - intros row Hrow. apply in_map_iff in Hrow.
    destruct Hrow as (r & <- & Hr). cbv beta.
    change (25 * 2) with 50 in *.
    assert (Hlen : len (times DOT (Z.quot (width - 50) 2) ++ r)
                   = 25 + (width - 50) / 2).
    { unfold len, times. rewrite length_app, repeat_length, Nat2Z.inj_add.
      specialize (Hw r Hr). apply Z.eqb_eq in Hw. unfold len in Hw.
      rewrite Hw, quot2_div by lia.
      rewrite Z2Nat.id by (Z.to_euclidean_division_equations; lia).
      lia. }
    rewrite Hlen. split; [reflexivity |].
    Z.to_euclidean_division_equations; lia.
Qed.

Lemma margin_fills_terminal_witness :
  len face0_at_80 = len (selectFace true 1 face0) /\
  forall row, In row face0_at_80 ->
    len row = 25 + (80 - 50) / 2 /\ 80 - 1 <= 2 * len row <= 80.
Proof.
  apply (margin_fills_terminal true 0 1 80 face0 face0_at_80);
    reflexivity.
Defined.

(** ** The start row in right alignment *)

Lemma half_up_mono (a b : Z) : 0 <= a <= b -> half_up a <= half_up b.
Proof.
  intros H. unfold half_up. rewrite !quot2_div by lia.
  Z.to_euclidean_division_equations; lia.
Qed.

(** A scan from step [k] on returns 0 or the row of a step not before
    [k]: a row between 0 and the row of step [k]. *)
Lemma scan_seq_range (face : list str) (outN : Z) :
  forall n k N r,
    (k + n <= length face)%nat ->
    scan face outN (map Z.of_nat (seq k n)) N = Ok r ->
    0 <= r /\ ((k < length face)%nat -> r <= candidate (len face) (Z.of_nat k)).
Proof.
  induction n as [| n IH]; intros k N r Hlen Hs.
  - injection Hs as <-. split; [lia |]. intros Hk.
    apply candidate_nonneg; unfold len; lia.
  - simpl seq in Hs. simpl map in Hs. simpl scan in Hs.
    destruct (index_in_range face (zigzag (len face) (Z.of_nat k)))
      as (row & Hrow & _).
    { apply zigzag_bounds; unfold len; lia. }
    rewrite Hrow in Hs. cbn [bind] in Hs.
    destruct (outN <? leading row N).
    + injection Hs as <-. split; [| lia].
      apply candidate_nonneg; unfold len; lia.
    + destruct (IH (S k) _ r ltac:(lia) Hs) as [H0 Hup].
      split; [exact H0 |]. intros _.
      destruct n as [| n'].
      * injection Hs as <-. apply candidate_nonneg; unfold len; lia.
      * specialize (Hup ltac:(lia)).
        assert (half_up (Z.of_nat k) <= half_up (Z.of_nat (S k)))
          by (apply half_up_mono; lia).
        unfold candidate in *. lia.
Qed.

(** X8: in right alignment the message never starts above row 0, never
    below the centre row of the visible face, and never below the
    vertically centred row. *)
Theorem right_start_row_range (face : list str) (outN L r : Z) :
  msgStartR face outN L = Ok r ->
  0 <= r <= len face / 2 /\ r <= Z.max 0 ((len face - L + 1) / 2).
Proof.
  unfold msgStartR. rewrite range_len.
  destruct (scan face outN (map Z.of_nat (seq 0 (length face))) 0)
    as [r0 | e] eqn:Es; [| discriminate].
  cbn [bind]. rewrite min_of_gtb, centered_max. intros [= <-].
  destruct (scan_seq_range face outN (length face) 0%nat 0 r0 (le_n _) Es)
    as [H0 Hup].
  assert (Hr0 : r0 <= len face / 2).
  { destruct face as [| row face'].
    - simpl in Es. injection Es as <-. reflexivity.
    - specialize (Hup ltac:(simpl; lia)).
      rewrite candidate_div in Hup by (unfold len; lia).
      change ((Z.of_nat 0 + 1) / 2) with 0 in Hup. lia. }
  lia.
Qed.

Lemma right_start_row_range_witness :
  0 <= 13 <= len face0_at_80 / 2 /\
  13 <= Z.max 0 ((len face0_at_80 - 1 + 1) / 2).
Proof.
  apply (right_start_row_range face0_at_80 36 1 13). reflexivity.
Defined.

Lemma scan_mono (face : list str) (outN outN' : Z) :
  outN <= outN' ->
  forall n k N r r',
    (k + n <= length face)%nat ->
    scan face outN (map Z.of_nat (seq k n)) N = Ok r ->
    scan face outN' (map Z.of_nat (seq k n)) N = Ok r' ->
    r' <= r.
Proof.
  intros Hle. induction n as [| n IH]; intros k N r r' Hlen Hs Hs'.
  - injection Hs as <-. injection Hs' as <-. lia.
  - simpl seq in *. simpl map in *. simpl scan in *.
    destruct (index_in_range face (zigzag (len face) (Z.of_nat k)))
      as (row & Hrow & _).
    { apply zigzag_bounds; unfold len; lia. }
    rewrite Hrow in Hs, Hs'. cbn [bind] in Hs, Hs'.
    destruct (outN' <? leading row N) eqn:E'.
    + apply Z.ltb_lt in E'.
      assert (E : (outN <? leading row N) = true) by (apply Z.ltb_lt; lia).
      rewrite E in Hs. injection Hs as <-. injection Hs' as <-. lia.
    + destruct (outN <? leading row N) eqn:E.
      * injection Hs as <-.
        destruct (scan_seq_range face outN' n (S k) _ r' ltac:(lia) Hs')
          as [H0 Hup].
        destruct n as [| n'].
        -- injection Hs' as <-. apply candidate_nonneg; unfold len; lia.
        -- specialize (Hup ltac:(lia)).
           assert (half_up (Z.of_nat k) <= half_up (Z.of_nat (S k)))
             by (apply half_up_mono; lia).
           unfold candidate in *. lia.
      * exact (IH (S k) _ r r' ltac:(lia) Hs Hs').
Qed.

(** X9: in right alignment a wider message, or one with more lines,
    never starts on a lower row. *)
Theorem wider_message_starts_no_lower (face : list str)
    (outN outN' L L' r r' : Z) :
  outN <= outN' -> L <= L' ->
  msgStartR face outN L = Ok r ->
  msgStartR face outN' L' = Ok r' ->
  r' <= r.
Proof.
  intros HN HL. unfold msgStartR. rewrite range_len.
  destruct (scan face outN (map Z.of_nat (seq 0 (length face))) 0)
    as [r0 | e] eqn:Es; [| discriminate].
  destruct (scan face outN' (map Z.of_nat (seq 0 (length face))) 0)
    as [r0' | e'] eqn:Es'; [| discriminate].
  cbn [bind]. rewrite !min_of_gtb, !centered_max.
  intros [= <-] [= <-].
  pose proof (scan_mono face outN outN' HN (length face) 0%nat 0 r0 r0'
                (le_n _) Es Es') as Hr.
  assert ((len face - L' + 1) / 2 <= (len face - L + 1) / 2)
    by (apply Z.div_le_mono; lia).
  lia.
Qed.

Lemma wider_message_starts_no_lower_witness :
  msgStartR face0_at_80 36 1 = Ok 13 /\
  msgStartR face0_at_80 100000 1 = Ok 0 /\
  0 <= 13.
Proof.
  split; [reflexivity |]. split; [reflexivity |].
  apply (wider_message_starts_no_lower face0_at_80 36 100000 1 1 13 0);
    (lia || reflexivity).
Defined.

(** ** Colours *)

(** X10: for an ASCII face symbol the colour lookup succeeds exactly on
    the digits 0 to 8; the digit 9, which the palette has no entry for,
    raises IndexError and any other symbol, the background dot included,
    raises ValueError. *)
Theorem bgColor_errors (color : char) :
  0 <= color < 128 ->
  ((exists esc, bgColor color = Ok esc) <-> 48 <= color <= 56) /\
  (color = 57 -> bgColor color = Raise IndexError) /\
  (color < 48 \/ 57 < color -> bgColor color = Raise ValueError).
Proof.
  intros Hascii. split; [split |]; [| | split].
  - intros (esc & Hesc). unfold bgColor, int_of_symbol in Hesc.
    destruct ((48 <=? color) && (color <=? 57)) eqn:E; [| discriminate].
    apply andb_true_iff in E. destruct E as [Hlo Hhi].
    apply Z.leb_le in Hlo, Hhi.
    destruct (Z.eq_dec color 57) as [-> | Hne]; [discriminate | lia].
  - intros Hr. apply bgColor_ok.
    + unfold symbol_ok. change (len palette) with 9.
      apply orb_true_iff. right. apply andb_true_iff.
      split; [apply Z.leb_le | apply Z.ltb_lt]; lia.
    + apply Z.eqb_neq. unfold DOT. lia.
  - intros ->. reflexivity.
  - intros Hout. unfold bgColor, int_of_symbol.
    destruct ((48 <=? color) && (color <=? 57)) eqn:E; [| reflexivity].
    apply andb_true_iff in E. destruct E as [Hlo Hhi].
    apply Z.leb_le in Hlo, Hhi. lia.
Qed.

Lemma bgColor_errors_witness :
  ((exists esc, bgColor 46 = Ok esc) <-> 48 <= 46 <= 56) /\
  (46 = 57 -> bgColor 46 = Raise IndexError) /\
  (46 < 48 \/ 57 < 46 -> bgColor 46 = Raise ValueError).
Proof. apply (bgColor_errors 46). lia. Defined.

(** ** The renderers *)


Section Renderers.
Variable eaw : char -> EAW.

(** Where no text may go, the right renderer paints a row as the left
    renderer does and leaves the message alone. *)
Lemma rightPixels_paint (row : str) :
  forall msgok msgChars out,
    msgok = false \/ msgChars = [] ->
    rightPixels eaw row msgok msgChars out
    = (o <- leftPixels row out;; Ok (o, msgChars)).
Proof.
  induction row as [| color row IH]; intros msgok msgChars out Hno;
    [reflexivity |].
  cbn [rightPixels leftPixels].
  assert (Hcond : negb (if negb (color =? DOT) then false else msgok)
                  || (len msgChars <=? 0) = true).
  { destruct Hno as [-> | ->].
    - destruct (negb (color =? DOT)); reflexivity.
    - apply orb_true_r. }
  assert (Hnext : (if negb (color =? DOT) then false else msgok) = false
                  \/ msgChars = []).
  { destruct Hno as [-> | ->]; [left | right; reflexivity].
    destruct (negb (color =? DOT)); reflexivity. }
  destruct (color =? DOT) eqn:E.
  - cbn [bind]. rewrite Hcond, (IH _ _ _ Hnext), <- app_assoc. reflexivity.
  - destruct (bgColor color) as [esc | e]; [| reflexivity].
    cbn [bind]. rewrite Hcond, (IH _ _ _ Hnext), <- app_assoc. reflexivity.
Qed.

Lemma rows_paint_empty (rows : list str) :
  forall sR sL width l out,
    rightRows eaw sR rows l [] out = leftRows eaw width sL rows l [] out.
Proof.
  induction rows as [| row rows IH]; intros sR sL width l out;
    [reflexivity |].
  cbn [rightRows leftRows].
  rewrite rightPixels_paint by (right; reflexivity).
  destruct (leftPixels row out) as [o | e]; [| reflexivity].
  cbn [bind]. rewrite orb_true_r, <- app_assoc. apply IH.
Qed.

(** X11: with an empty message (as under -q) both renderers write the
    same text for the same rows, whatever the terminal width and the
    start row: the picture alone. *)
Theorem quiet_same_picture (face : list str) (wR wL sR sL : Z) :
  outRight eaw face wR [] sR = outLeft eaw face wL [] sL.
Proof.
  unfold outRight, outLeft. rewrite (rows_paint_empty face sR sL wL).
  reflexivity.
Qed.

(** X12: in the right renderer a row above the start row, a row that
    opens with a face pixel, and any row once the message is used up are
    painted exactly as the left renderer paints its pixels, and nothing
    is taken from the message. *)
Theorem no_text_where_forbidden (row : str) (msgok : bool)
    (msgChars out : str) :
  msgok = false \/ msgChars = [] \/
  (exists color row', row = color :: row' /\ color <> DOT) ->
  rightPixels eaw row msgok msgChars out
  = (o <- leftPixels row out;; Ok (o, msgChars)).
Proof.
  intros [H | [H | (color & row' & -> & Hc)]];
    [apply rightPixels_paint; tauto | apply rightPixels_paint; tauto |].
  apply Z.eqb_neq in Hc. cbn [rightPixels leftPixels]. rewrite Hc.
  cbn [negb orb].
  destruct (bgColor color) as [esc | e]; [| reflexivity].
  cbn [bind].
  rewrite rightPixels_paint by (left; reflexivity).
  rewrite <- app_assoc. reflexivity.
Qed.

End Renderers.

Lemma no_text_where_forbidden_witness :
  rightPixels eaw_excerpt (lit "..1.") false (lit "hi") []
  = (o <- leftPixels (lit "..1.") [];; Ok (o, lit "hi")).
Proof.
  apply (no_text_where_forbidden eaw_excerpt). left. reflexivity.
Defined.

(** ** Text lines of the left renderer *)



Section LeftText.
Variable eaw : char -> EAW.
Variable width : Z.




(** X14: the text loop of the left renderer relies on the newline that
    closes the message: on a text of narrow characters without any
    newline that ends before the last column, it reads past the end of
    the message and raises IndexError. *)
Theorem left_text_needs_newline (msgChars : str) (x : Z) (out : str) :
  (forall c, In c msgChars -> c <> LF /\ in_FWA (eaw c) = false) ->
  x + len msgChars < width ->
  leftText eaw width msgChars x out = Raise IndexError.
Proof.
  revert x out. induction msgChars as [| c rest IH]; intros x out Hall Hfit.
  - cbn [leftText]. change (len (@nil char)) with 0 in Hfit.
    destruct (x <? width) eqn:E; [reflexivity |].
    apply Z.ltb_ge in E. lia.
  - assert (Hlen : len (c :: rest) = 1 + len rest).
    { unfold len. cbn [length]. lia. }
    destruct (Hall c (or_introl eq_refl)) as [Hc Hn].
    cbn [leftText].
    destruct (x <? width) eqn:E; [| apply Z.ltb_ge in E; unfold len in *; lia].
    rewrite Hn. cbn [andb]. apply Z.eqb_neq in Hc. rewrite Hc.
    apply IH; [| lia].
    intros c' Hc'. apply Hall. right. exact Hc'.
Qed.

End LeftText.


Lemma left_text_needs_newline_witness :
  leftText eaw_excerpt 60 (lit "hi") 50 [] = Raise IndexError.
Proof.
  apply (left_text_needs_newline eaw_excerpt 60 (lit "hi") 50 []).
  - simpl. intros c [<- | [<- | []]]; split; (discriminate || reflexivity).
  - vm_compute. reflexivity.
Defined.

(** ** Runs without exception *)




Section Total.
Variable eaw : char -> EAW.







End Total.


(** ** The pixel grid of the right renderer *)

Section RightCells.
Variable eaw : char -> EAW.




End RightCells.

